(** * Verification of the MySQL export orchestration of nging

    Source files covered:
    - [application/library/dbmanager/driver/mysql/mysql_export.go]
      ([TempDir], [Export], [ResetAutoIncrement], [(m *mySQL).Export]);
    - [application/model/collectorPage.go] holds only database queries and
      is not needed by the properties below.

    The Go code is embedded shallowly.  Pure parts (string slicing, the
    regular expression, the request fingerprint) are Rocq functions.
    Everything that touches the operating system runs in a small monad [M]
    over a [world] (files, directories, clock, the [backgrounds] registry
    with its shared maps) that also collects the [event]s a run produces.
    Outcomes that the program cannot decide itself (a failing [mkdir], the
    bytes a subprocess prints, its exit status, ...) are read from an
    environment [Env], over which every theorem quantifies. *)

From Stdlib Require Import ZArith Lia Strings.Byte Strings.String Strings.Ascii.
From Stdlib Require Import Numbers.DecimalString Sorting.Permutation.
From stdpp Require Import gmap strings list.

Open Scope Z_scope.

(** * Go strings and the helpers of [strings] and [webx-top/com] *)

(** [strings.HasPrefix]. *)
Fixpoint HasPrefix (s prefix : string) : bool :=
  match prefix, s with
  | EmptyString, _ => true
  | String a p, String b s' => Ascii.eqb a b && HasPrefix s' p
  | String _ _, EmptyString => false
  end.

(** [strings.LastIndex]: the byte index of the last occurrence of [substr]
    in [s], or [-1].  The scan runs left to right and remembers the last
    position at which [substr] starts. *)
Fixpoint LastIndex_from (i : Z) (s substr : string) (last : Z) : Z :=
  let last' := if HasPrefix s substr then i else last in
  match s with
  | EmptyString => last'
  | String _ s' => LastIndex_from (i + 1) s' substr last'
  end.

Definition LastIndex (s substr : string) : Z := LastIndex_from 0 s substr (-1).

(** The slice expression [s[lo:hi]] and [len(s)]. *)
Definition slice (s : string) (lo hi : Z) : string :=
  String.substring (Z.to_nat lo) (Z.to_nat (hi - lo)) s.

Definition len (s : string) : Z := Z.of_nat (String.length s).

(** No byte of [s] is a colon. *)
Definition colon : ascii := ":"%char.

Fixpoint colon_free (s : string) : bool :=
  match s with
  | EmptyString => true
  | String c s' => negb (Ascii.eqb c colon) && colon_free s'
  end.

(** [com.InSlice]: linear search. *)
Fixpoint InSlice (v : string) (sl : list string) : bool :=
  match sl with
  | [] => false
  | s :: sl' => String.eqb s v || InSlice v sl'
  end.

(** [strings.Split] for a one-byte separator, the only use in this file
    ([strings.Split(x, `,`)]). *)
Fixpoint Split_from (cur : string) (s : string) (sep : ascii) : list string :=
  match s with
  | EmptyString => [String.rev cur]
  | String c s' =>
      if Ascii.eqb c sep then String.rev cur :: Split_from "" s' sep
      else Split_from (String c cur) s' sep
  end.

Definition Split (s : string) (sep : ascii) : list string := Split_from "" s sep.

(** [com.String] applied to an [int64]: decimal digits. *)
Definition itoa (z : Z) : string := NilZero.string_of_int (Z.to_int z).

(** ** [com.Md5]: hexadecimal MD5 digest (RFC 1321) *)

Module Md5.

Definition w32 (x : Z) : Z := x mod 2 ^ 32.

Definition rotl (x c : Z) : Z :=
  w32 (Z.lor (Z.shiftl x c) (Z.shiftr x (32 - c))).

Definition not32 (x : Z) : Z := Z.lxor x 0xffffffff.

Definition K : list Z :=
  [ 0xd76aa478; 0xe8c7b756; 0x242070db; 0xc1bdceee;
    0xf57c0faf; 0x4787c62a; 0xa8304613; 0xfd469501;
    0x698098d8; 0x8b44f7af; 0xffff5bb1; 0x895cd7be;
    0x6b901122; 0xfd987193; 0xa679438e; 0x49b40821;
    0xf61e2562; 0xc040b340; 0x265e5a51; 0xe9b6c7aa;
    0xd62f105d; 0x02441453; 0xd8a1e681; 0xe7d3fbc8;
    0x21e1cde6; 0xc33707d6; 0xf4d50d87; 0x455a14ed;
    0xa9e3e905; 0xfcefa3f8; 0x676f02d9; 0x8d2a4c8a;
    0xfffa3942; 0x8771f681; 0x6d9d6122; 0xfde5380c;
    0xa4beea44; 0x4bdecfa9; 0xf6bb4b60; 0xbebfbc70;
    0x289b7ec6; 0xeaa127fa; 0xd4ef3085; 0x04881d05;
    0xd9d4d039; 0xe6db99e5; 0x1fa27cf8; 0xc4ac5665;
    0xf4292244; 0x432aff97; 0xab9423a7; 0xfc93a039;
    0x655b59c3; 0x8f0ccc92; 0xffeff47d; 0x85845dd1;
    0x6fa87e4f; 0xfe2ce6e0; 0xa3014314; 0x4e0811a1;
    0xf7537e82; 0xbd3af235; 0x2ad7d2bb; 0xeb86d391 ].

Definition shifts : list Z :=
  [ 7; 12; 17; 22; 7; 12; 17; 22; 7; 12; 17; 22; 7; 12; 17; 22;
    5; 9; 14; 20; 5; 9; 14; 20; 5; 9; 14; 20; 5; 9; 14; 20;
    4; 11; 16; 23; 4; 11; 16; 23; 4; 11; 16; 23; 4; 11; 16; 23;
    6; 10; 15; 21; 6; 10; 15; 21; 6; 10; 15; 21; 6; 10; 15; 21 ].

Record digest := Digest { dA : Z; dB : Z; dC : Z; dD : Z }.

Definition init : digest :=
  Digest 0x67452301 0xefcdab89 0x98badcfe 0x10325476.

Definition round (M : list Z) (d : digest) (i : nat) : digest :=
  let '(Digest a b c dd) := d in
  let iz := Z.of_nat i in
  let '(f, g) :=
    if iz <? 16 then (Z.lor (Z.land b c) (Z.land (not32 b) dd), iz)
    else if iz <? 32 then (Z.lor (Z.land dd b) (Z.land (not32 dd) c), (5 * iz + 1) mod 16)
    else if iz <? 48 then (Z.lxor (Z.lxor b c) dd, (3 * iz + 5) mod 16)
    else (Z.lxor c (Z.lor b (not32 dd)), (7 * iz) mod 16) in
  let f' := w32 (f + a + nth i K 0 + nth (Z.to_nat g) M 0) in
  Digest dd (w32 (b + rotl f' (nth i shifts 0))) b c.

Definition block (d : digest) (M : list Z) : digest :=
  let '(Digest a b c dd) := fold_left (round M) (seq 0 64) d in
  Digest (w32 (dA d + a)) (w32 (dB d + b)) (w32 (dC d + c)) (w32 (dD d + dd)).

Definition le_bytes (n : nat) (x : Z) : list Z :=
  map (fun k => Z.shiftr x (8 * Z.of_nat k) mod 256) (seq 0 n).

Fixpoint le_word (bs : list Z) : Z :=
  match bs with
  | [] => 0
  | b :: bs' => b + 256 * le_word bs'
  end.

Definition pad (msg : list Z) : list Z :=
  let n := Z.of_nat (length msg) in
  msg ++ [0x80] ++ repeat 0 (Z.to_nat ((55 - n) mod 64))
      ++ le_bytes 8 ((8 * n) mod 2 ^ 64).

Fixpoint chunks (count size : nat) (l : list Z) : list (list Z) :=
  match count with
  | O => []
  | S count' => take size l :: chunks count' size (drop size l)
  end.

Definition sum (msg : list Z) : list Z :=
  let padded := pad msg in
  let blocks := chunks (length padded / 64) 64 padded in
  let words := map (fun b => map le_word (chunks 16 4 b)) blocks in
  let '(Digest a b c dd) := fold_left block words init in
  le_bytes 4 a ++ le_bytes 4 b ++ le_bytes 4 c ++ le_bytes 4 dd.

Definition hexdigit (x : Z) : ascii :=
  ascii_of_nat (Z.to_nat (if x <? 10 then 48 + x else 87 + x)).

Fixpoint hex (bs : list Z) : string :=
  match bs with
  | [] => EmptyString
  | b :: bs' => String (hexdigit (b / 16)) (String (hexdigit (b mod 16)) (hex bs'))
  end.

End Md5.

Definition bytes_of (s : string) : list Z :=
  map (fun b => Z.of_N (Byte.to_N b)) (list_byte_of_string s).

Definition Md5 (s : string) : string := Md5.hex (Md5.sum (bytes_of s)).

(** ** [com.Dump]: [json.MarshalIndent(v, "", "  ")]

    [com.Dump(v, false)] returns the indented JSON text of [v] without
    printing it.  The value dumped at line 279 is the three-element slice
    [[]interface{}{tables, output, types}], so the encoder is written out
    for that shape: a slice of strings, a string, a slice of strings.

    String encoding follows [encoding/json] with HTML escaping on: the
    quote and the backslash get a backslash, newline, carriage return and
    tab their short form, other control bytes and [<], [>], [&] the form
    [\u00XX].  Bytes from 0x80 on are copied, which is what the encoder
    does with well-formed UTF-8 other than the line separators U+2028 and
    U+2029; the properties below are stated for ASCII names ([plain]).
    A slice that holds no element is the nil slice that [FormValues] yields
    for an absent field and prints as [null]. *)

Definition dquote : ascii := "034"%char.
Definition newline : ascii := "010"%char.

Definition json_safe (c : ascii) : bool :=
  let n := nat_of_ascii c in
  negb (n <? 32)%nat && negb (Ascii.eqb c dquote) && negb (Ascii.eqb c "\")
  && negb (Ascii.eqb c "<") && negb (Ascii.eqb c ">") && negb (Ascii.eqb c "&").

Definition json_escape (c : ascii) : string :=
  if json_safe c then String c ""
  else if Ascii.eqb c dquote then String "\" (String dquote "")
  else if Ascii.eqb c "\" then "\\"
  else if Ascii.eqb c newline then "\n"
  else if Ascii.eqb c "013" then "\r"
  else if Ascii.eqb c "009" then "\t"
  else "\u00" +:+ Md5.hex [Z.of_nat (nat_of_ascii c)].

Fixpoint json_chars (s : string) : string :=
  match s with
  | EmptyString => EmptyString
  | String c s' => json_escape c +:+ json_chars s'
  end.

Definition json_string (s : string) : string :=
  String dquote (json_chars s +:+ String dquote "").

(** The elements [x :: l] of a non-empty slice, one per line at indentation
    [pad], separated by commas. *)
Fixpoint json_items (pad : string) (x : string) (l : list string) : string :=
  match l with
  | [] => pad +:+ json_string x
  | y :: l' => pad +:+ json_string x +:+ String "," (String newline (json_items pad y l'))
  end.

Definition json_slice (pad : string) (l : list string) : string :=
  match l with
  | [] => "null"
  | x :: l' =>
      String "[" (String newline (json_items (pad +:+ "  ") x l'))
      +:+ String newline (pad +:+ "]")
  end.

Definition Dump (tables : list string) (output : string) (types : list string) : string :=
  String "[" (String newline ("  " +:+ json_slice "  " tables))
  +:+ String "," (String newline ("  " +:+ json_string output))
  +:+ String "," (String newline ("  " +:+ json_slice "  " types))
  +:+ String newline "]".

(** Line 279: [cacheKey := com.Md5(com.Dump([]interface{}{tables, output, types}, false))]. *)
Definition cacheKey (tables : list string) (output : string) (types : list string) : string :=
  Md5 (Dump tables output types).

(** Names made of ASCII bytes that the JSON encoder copies unchanged. *)
Definition plain (s : string) : bool :=
  forallb (fun c => json_safe c && (nat_of_ascii c <? 128)%nat) (list_ascii_of_string s).

(** * [cleanRegExp] (line 61) and its [ReplaceAll]

    [regexp.MustCompile(` AUTO_INCREMENT=[0-9]*\s*`)]: a space, the literal
    [AUTO_INCREMENT=], a greedy run of decimal digits and a greedy run of
    white space.  The pattern has no alternation, so the leftmost-first
    match at a position is the one obtained by taking both runs as long as
    possible.  All pattern bytes are ASCII, hence matching on bytes agrees
    with matching on runes. *)

Definition is_digit (b : byte) : bool :=
  match b with
  | x30 | x31 | x32 | x33 | x34 | x35 | x36 | x37 | x38 | x39 => true
  | _ => false
  end.

(** The class [\s] of RE2: tab, line feed, form feed, carriage return, space. *)
Definition is_space (b : byte) : bool :=
  match b with
  | x09 | x0a | x0c | x0d | x20 => true
  | _ => false
  end.

Definition literal : list byte := list_byte_of_string "AUTO_INCREMENT=".

Definition pattern_head : list byte := x20 :: literal.

Fixpoint has_prefix (p s : list byte) : bool :=
  match p, s with
  | [], _ => true
  | a :: p', b :: s' => Byte.eqb a b && has_prefix p' s'
  | _ :: _, [] => false
  end.

Fixpoint skip_while (f : byte -> bool) (s : list byte) : list byte :=
  match s with
  | [] => []
  | b :: s' => if f b then skip_while f s' else s
  end.

(** The match of [cleanRegExp] that starts at the first byte of [s], if
    there is one: the result is the input left after the match. *)
Definition match_here (s : list byte) : option (list byte) :=
  if has_prefix pattern_head s
  then Some (skip_while is_space (skip_while is_digit (drop (length pattern_head) s)))
  else None.

(** [ReplaceAll] scans from the left; at a match it writes the replacement
    (one space) and goes on after the match, otherwise it copies one byte.
    A match is never empty, so the remaining input gets shorter in either
    case and a fuel of [length s] is enough ([replace_all_fuel] below). *)
Fixpoint replace_all (fuel : nat) (s : list byte) : list byte :=
  match fuel, s with
  | S fuel', c :: t =>
      match match_here s with
      | Some rest => x20 :: replace_all fuel' rest
      | None => c :: replace_all fuel' t
      end
  | _, _ => []
  end.

(** [cleanRegExp.ReplaceAll(b, []byte(` `))] (line 231). *)
Definition cleanRegExp_ReplaceAll (b : list byte) : list byte :=
  replace_all (length b) b.

(** [p] occurs in [s] as a contiguous block. *)
Definition occurs (p s : list byte) : Prop :=
  exists pre post, s = pre ++ p ++ post.

(** Some match of [cleanRegExp] in [s] is directly followed by the text
    [AUTO_INCREMENT=]. *)
Fixpoint adjacent_match (s : list byte) : bool :=
  match s with
  | [] => false
  | _ :: t =>
      match match_here s with
      | Some rest => has_prefix literal rest
      | None => false
      end || adjacent_match t
  end.

(** * Data of [mysql_export.go] *)

(** [driver.DbAuth], with the fields that [Export] reads. *)
Record DbAuth := mkDbAuth {
  Host : string;
  Username : string;
  Password : string;
  Db : string;
  Charset : string
}.

(** [FileInfo] (lines 74-82); instants and durations in nanoseconds. *)
Record FileInfo := mkFileInfo {
  Start : Z;
  End_ : Z;
  Elapsed : Z;
  Path : string;
  Size : Z;
  Compressed : bool;
  Error : string
}.

(** What [Export] may receive as [structWriter] or [dataWriter], an
    [interface{}]: [nil], a value that implements [io.Writer] (identified
    by [id]; [closer] tells whether it implements [io.Closer] too), a
    [string] holding a file path, or a value of any other type. *)
Inductive Writer :=
| WNil
| WStream (id : nat) (closer : bool)
| WPath (path : string)
| WOther.

#[global] Instance Writer_eq_dec : EqDecision Writer.
Proof. solve_decision. Defined.

(** The [io.Writer] a pass writes to: the stream it was given or the file
    it created. *)
Inductive Sink :=
| SStream (id : nat) (closer : bool)
| SFile (path : string).

(** [w.(io.Closer)] succeeds: [*os.File] always has [Close]. *)
Definition closable (w : Sink) : bool :=
  match w with
  | SStream _ closer => closer
  | SFile _ => true
  end.

(** The error values built in this file. *)
Inductive error :=
| ErrNoTable                       (* `No table selected for export` (line 98) *)
| ErrCharset                       (* invalid charset value (line 118) *)
| ErrBackup (cause : string)       (* `Failed to backup: %v` *)
| ErrUnsupported                   (* db.ErrUnsupported, `SQL Writer Error: %T` *)
| ErrExit (cause stderr : string)  (* err.Error() + `: ` + rec.String() (line 212) *)
| ErrNotExist (path : string)      (* a file that is not there is read or removed *)
| ErrOS (cause : string)           (* an error of os, ioutil or archiver, passed on as it is *)
| ErrRunning.                      (* the task is already being processed (line 288) *)

(** Effects visible from outside, in the order in which they happen.
    [EvWriter] is the only one without an effect of its own: it marks the
    point of a pass at which the type switch has produced the writer [w]. *)
Inductive event :=
| EvLog (tables : list string)           (* log.Println(`Starting backup:`, tables) *)
| EvLogError (e : error)                 (* loga.Error(err) *)
| EvMkdirAll (dir : string)              (* os.MkdirAll succeeded *)
| EvCreate (path : string)               (* os.Create succeeded *)
| EvWriter (w : Sink)
| EvStart (args : list string)           (* cmd.Start() of mysqldump with these arguments *)
| EvCopy (w : Sink) (data : list byte)   (* io.Copy(w, stdout) relayed these bytes *)
| EvWait (args : list string)            (* cmd.Wait() returned *)
| EvCloseStdout                          (* stdout.Close() *)
| EvClose (w : Sink)                     (* c.Close() inside clean *)
| EvWriteFile (path : string)            (* ioutil.WriteFile succeeded *)
| EvZip (zipFile : string) (sqlFiles : list string)  (* archiver.Zip.Make succeeded *)
| EvRemove (path : string)               (* os.Remove succeeded *)
| EvHeader (filename : string).          (* Content-Disposition header set *)

(** What the program takes from outside.  [Charsets] is a package variable
    declared in another file of package [mysql]; [SQLTempDir] is the
    variable of line 64, applied.  The [_fault] fields say which call fails
    and with which message; [write_torn] says what a failing
    [ioutil.WriteFile] leaves in the file. *)
Record Env := mkEnv {
  Charsets : list string;
  SQLTempDir : string;
  filepath_Join : list string -> string;
  filepath_Dir : string -> string;
  mkdir_fault : string -> option string;
  create_fault : string -> option string;
  pipe_fault : list string -> option string;
  start_fault : list string -> option string;
  copy_result : list string -> list byte * option string;
  wait_fault : list string -> option string;
  Stderr : list string -> string;
  write_fault : string -> option string;
  zip_fault : string -> list string -> option string;
  zip_bytes : list (list byte) -> list byte;
  Now : nat -> Z;
  DumpInfos : list FileInfo -> list byte;
  write_torn : string -> list byte -> option (list byte);
  remove_fault : string -> option string
}.

(** The state outside the running call.  [backgrounds] is the [sync.Map]
    of line 62; the value it stores for an operation is a Go map, that is a
    reference: [jobmaps] is the heap those references point into, so that a
    map loaded from [backgrounds] and then updated is updated for everybody.
    [infos] is the heap of the [*FileInfos] values and [next] the next free
    address of both heaps. *)
Record world := mkWorld {
  files : gmap string (list byte);
  dirs : gset string;
  clock : nat;
  backgrounds : gmap string nat;
  jobmaps : gmap nat (gmap string nat);
  infos : gmap nat (list FileInfo);
  next : nat
}.

Definition set_files (f : gmap string (list byte)) (w : world) : world :=
  mkWorld f (dirs w) (clock w) (backgrounds w) (jobmaps w) (infos w) (next w).
Definition set_dirs (d : gset string) (w : world) : world :=
  mkWorld (files w) d (clock w) (backgrounds w) (jobmaps w) (infos w) (next w).
Definition set_clock (c : nat) (w : world) : world :=
  mkWorld (files w) (dirs w) c (backgrounds w) (jobmaps w) (infos w) (next w).
Definition set_backgrounds (b : gmap string nat) (w : world) : world :=
  mkWorld (files w) (dirs w) (clock w) b (jobmaps w) (infos w) (next w).
Definition set_jobmaps (j : gmap nat (gmap string nat)) (w : world) : world :=
  mkWorld (files w) (dirs w) (clock w) (backgrounds w) j (infos w) (next w).
Definition set_infos (i : gmap nat (list FileInfo)) (w : world) : world :=
  mkWorld (files w) (dirs w) (clock w) (backgrounds w) (jobmaps w) i (next w).
Definition set_next (n : nat) (w : world) : world :=
  mkWorld (files w) (dirs w) (clock w) (backgrounds w) (jobmaps w) (infos w) n.

(** * The monad of effects *)

Inductive result (A : Type) :=
| Ok (a : A)
| Err (e : error).
Arguments Ok {A} a.
Arguments Err {A} e.

(** A computation returns a value or a Go [error], the world it leaves
    and the events it produced. *)
Definition M (A : Type) : Type := world -> result A * world * list event.

Definition ret {A} (a : A) : M A := fun w => (Ok a, w, []).

Definition throw {A} (e : error) : M A := fun w => (Err e, w, []).

Definition bind {A B} (m : M A) (k : A -> M B) : M B :=
  fun w =>
    match m w with
    | (Ok a, w1, evs1) =>
        let '(r, w2, evs2) := k a w1 in (r, w2, evs1 ++ evs2)
    | (Err e, w1, evs1) => (Err e, w1, evs1)
    end.

Notation "x <- m ;; k" := (bind m (fun x => k))
  (at level 100, m at next level, right associativity).
Notation "m ;;; k" := (bind m (fun _ => k))
  (at level 100, right associativity).

Definition emit (ev : event) : M unit := fun w => (Ok tt, w, [ev]).

Definition get : M world := fun w => (Ok w, w, []).

Definition put (w : world) : M unit := fun _ => (Ok tt, w, []).

Definition modify (f : world -> world) : M unit := fun w => (Ok tt, f w, []).

(** [r, err := f(...)] followed by a test of [err]: the failure of [m]
    becomes a value, its effects stay. *)
Definition try {A} (m : M A) : M (result A) :=
  fun w => let '(r, w1, evs) := m w in (Ok r, w1, evs).

Definition outcome {A} (x : result A * world * list event) : result A := fst (fst x).
Definition after {A} (x : result A * world * list event) : world := snd (fst x).
Definition events {A} (x : result A * world * list event) : list event := snd x.

(** ** Calls into the operating system *)

Definition IsDir (dir : string) : M bool :=
  w <- get ;; ret (bool_decide (dir ∈ dirs w)).

Definition MkdirAll (E : Env) (dir : string) : M unit :=
  match mkdir_fault E dir with
  | Some cause => throw (ErrOS cause)
  | None => modify (fun w => set_dirs ({[dir]} ∪ dirs w) w) ;;; emit (EvMkdirAll dir)
  end.

Definition Create (E : Env) (path : string) : M Sink :=
  match create_fault E path with
  | Some cause => throw (ErrOS cause)
  | None =>
      modify (fun w => set_files (<[path := []]> (files w)) w) ;;;
      emit (EvCreate path) ;;;
      ret (SFile path)
  end.

Definition ReadFile (path : string) : M (list byte) :=
  w <- get ;;
  match files w !! path with
  | Some b => ret b
  | None => throw (ErrNotExist path)
  end.

(** [ioutil.WriteFile] opens the file with [O_TRUNC] and then writes.  When
    it fails, the file is as it was if it could not be opened
    ([write_torn] gives [None]); otherwise it is left with the bytes that
    reached it, possibly none. *)
Definition WriteFile (E : Env) (path : string) (b : list byte) : M unit :=
  match write_fault E path with
  | Some cause =>
      match write_torn E path b with
      | Some torn => modify (fun w => set_files (<[path := torn]> (files w)) w)
      | None => ret tt
      end ;;;
      throw (ErrOS cause)
  | None =>
      modify (fun w => set_files (<[path := b]> (files w)) w) ;;;
      emit (EvWriteFile path)
  end.

(** [os.Remove]: it fails, and leaves things as they are, when
    [remove_fault] says so and when there is no such file. *)
Definition Remove (E : Env) (path : string) : M unit :=
  match remove_fault E path with
  | Some cause => throw (ErrOS cause)
  | None =>
      w <- get ;;
      match files w !! path with
      | Some _ =>
          put (set_files (delete path (files w)) w) ;;;
          emit (EvRemove path)
      | None => throw (ErrNotExist path)
      end
  end.

(** [com.FileSize]: the size from [os.Stat] and its error. *)
Definition FileSize (path : string) : M (Z * option string) :=
  w <- get ;;
  match files w !! path with
  | Some b => ret (Z.of_nat (length b), None)
  | None => ret (0, Some "no such file or directory")
  end.

Definition time_Now (E : Env) : M Z :=
  w <- get ;;
  put (set_clock (S (clock w)) w) ;;;
  ret (Now E (clock w)).

(** Bytes relayed by [io.Copy] reach the sink: they are appended to the
    file behind it, or sent down the stream. *)
Definition Sink_Write (w : Sink) (data : list byte) : M unit :=
  match w with
  | SFile path =>
      modify (fun st =>
        set_files (<[path := default [] (files st !! path) ++ data]> (files st)) st)
  | SStream _ _ => ret tt
  end ;;;
  emit (EvCopy w data).

(** [archiver.Zip.Make(zipFile, sqlFiles)]. *)
Definition Zip_Make (E : Env) (zipFile : string) (sqlFiles : list string) : M unit :=
  match zip_fault E zipFile sqlFiles with
  | Some cause => throw (ErrOS cause)
  | None =>
      w <- get ;;
      let contents := map (fun f => default [] (files w !! f)) sqlFiles in
      put (set_files (<[zipFile := zip_bytes E contents]> (files w)) w) ;;;
      emit (EvZip zipFile sqlFiles)
  end.

(** * [mysql_export.go] *)

Definition OpExport : string := "export".
Definition OpImport : string := "import".

(** [TempDir] (lines 84-93). *)
Definition TempDir (E : Env) (op : string) : M string :=
  let dir := filepath_Join E [SQLTempDir E; "dbmanager/cache"; op] in
  isdir <- IsDir dir ;;
  (if isdir then ret tt
   else
     r <- try (MkdirAll E dir) ;;
     match r with
     | Err e => emit (EvLogError e)
     | Ok _ => ret tt
     end) ;;;
  ret dir.

(** [ResetAutoIncrement] (lines 226-233). *)
Definition ResetAutoIncrement (E : Env) (sqlStructFile : string) : M unit :=
  b <- ReadFile sqlStructFile ;;
  WriteFile E sqlStructFile (cleanRegExp_ReplaceAll b).

(** ** [Export] (lines 96-223) *)

(** Lines 108-116: host and port from [cfg.Host]. *)
Definition Export_host_port (Host : string) : string * string :=
  let p := LastIndex Host ":" in
  let '(host, port) :=
    if 0 <? p then (slice Host 0 p, slice Host (p + 1) (len Host)) else (Host, "") in
  let port := if len port =? 0 then "3306" else port in
  (host, port).

(** Lines 120-136: the argument template. *)
Definition Export_args (cfg : DbAuth) (host port : string) : list string :=
  [ "--default-character-set=" +:+ Charset cfg;
    "--single-transaction";
    "--set-gtid-purged=OFF";
    "--no-autocommit";
    "--opt";
    "-d";
    "-h" +:+ host;
    "-P" +:+ port;
    "-u" +:+ Username cfg;
    "-p" +:+ Password cfg;
    Db cfg ].

(** Lines 142-148: the index of the first argument equal to [-d]; the zero
    value of [typeOptIndex] when there is none. *)
Fixpoint find_type_opt (args : list string) (index : nat) : nat :=
  match args with
  | [] => 0%nat
  | value :: args' =>
      if String.eqb value "-d" then index else find_type_opt args' (S index)
  end.

(** Lines 137-141: the closure [clean]. *)
Definition clean (w : Sink) : M unit :=
  if closable w then emit (EvClose w) else ret tt.

(** [fmt.Errorf(`Failed to backup: %v`, err)]. *)
Definition failed_to_backup (e : error) : error :=
  match e with
  | ErrOS cause => ErrBackup cause
  | _ => e
  end.

(** Lines 167-193: the type switch on [writer].  It yields the writer [w]
    and, for a file, the closure [onFinish]. *)
Definition resolve_writer (E : Env) (index : nat) (resetAutoIncrement : bool)
    (writer : Writer) : M (Sink * option (M unit)) :=
  match writer with
  | WStream id closer => ret (SStream id closer, None)
  | WPath v =>
      let dir := filepath_Dir E v in
      isdir <- IsDir dir ;;
      made <- (if isdir then ret (Ok tt) else try (MkdirAll E dir)) ;;
      match made with
      | Err e => throw (failed_to_backup e)
      | Ok _ =>
          created <- try (Create E v) ;;
          match created with
          | Err e => throw (failed_to_backup e)
          | Ok w =>
              let onFinish : M unit :=
                if (0 <? index)%nat then ret tt
                else if resetAutoIncrement then ResetAutoIncrement E v
                else ret tt in
              ret (w, Some onFinish)
          end
      end
  | _ => throw ErrUnsupported
  end.

(** Lines 194-220: the subprocess is run and its output relayed to [w]. *)
Definition relay (E : Env) (w : Sink) (onFinish : option (M unit))
    (args : list string) : M unit :=
  match pipe_fault E args with
  | Some cause => clean w ;;; throw (ErrBackup cause)
  | None =>
      emit (EvStart args) ;;;
      match start_fault E args with
      | Some cause => emit EvCloseStdout ;;; clean w ;;; throw (ErrBackup cause)
      | None =>
          let '(data, copied) := copy_result E args in
          Sink_Write w data ;;;
          match copied with
          | Some cause => emit EvCloseStdout ;;; clean w ;;; throw (ErrBackup cause)
          | None =>
              emit (EvWait args) ;;;
              match wait_fault E args with
              | Some cause =>
                  emit EvCloseStdout ;;; clean w ;;;
                  throw (ErrExit cause (Stderr E args))
              | None =>
                  clean w ;;;
                  emit EvCloseStdout ;;;
                  match onFinish with
                  | Some f => f
                  | None => ret tt
                  end
              end
          end
      end
  end.

(** Lines 160-220: one turn of the loop for a writer that is not [nil],
    with the arguments [args] as they stand at line 160. *)
Definition dump_pass (E : Env) (index : nat) (resetAutoIncrement : bool)
    (writer : Writer) (args : list string) : M unit :=
  resolved <- resolve_writer E index resetAutoIncrement writer ;;
  let '(w, onFinish) := resolved in
  emit (EvWriter w) ;;;
  relay E w onFinish args.

(** Lines 152-221: the loop over [[]interface{}{structWriter, dataWriter}].
    The assignment [args[typeOptIndex] = `-t`] stays in [args] for the
    turns that follow. *)
Fixpoint dump_passes (E : Env) (resetAutoIncrement : bool) (typeOptIndex : nat)
    (index : nat) (writers : list Writer) (args : list string) : M unit :=
  match writers with
  | [] => ret tt
  | WNil :: writers' =>
      dump_passes E resetAutoIncrement typeOptIndex (S index) writers' args
  | writer :: writers' =>
      let args := if (0 <? index)%nat then <[typeOptIndex := "-t"]> args else args in
      dump_pass E index resetAutoIncrement writer args ;;;
      dump_passes E resetAutoIncrement typeOptIndex (S index) writers' args
  end.

(** Lines 105-107: the first of the optional arguments, [false] without one. *)
Definition reset_flag (resetAutoIncrements : list bool) : bool :=
  match resetAutoIncrements with
  | b :: _ => b
  | [] => false
  end.

Definition Export (E : Env) (cfg : DbAuth) (tables : list string)
    (structWriter dataWriter : Writer) (resetAutoIncrements : list bool) : M unit :=
  if (length tables =? 0)%nat then throw ErrNoTable
  else
    emit (EvLog tables) ;;;
    let resetAutoIncrement := reset_flag resetAutoIncrements in
    let '(host, port) := Export_host_port (Host cfg) in
    if negb (InSlice (Charset cfg) (Charsets E)) then throw ErrCharset
    else
      let args := Export_args cfg host port in
      let typeOptIndex := find_type_opt args 0 in
      let args := args ++ tables in
      dump_passes E resetAutoIncrement typeOptIndex 0 [structWriter; dataWriter] args.

(** The argument lists of the subprocesses started, in order. *)
Fixpoint starts (evs : list event) : list (list string) :=
  match evs with
  | [] => []
  | EvStart args :: rest => args :: starts rest
  | _ :: rest => starts rest
  end.

(** Events other than the marker of a writer and the start of a
    subprocess. *)
Definition passive (ev : event) : Prop :=
  match ev with
  | EvWriter _ | EvStart _ => False
  | _ => True
  end.

(** All events of [m] satisfy [P]. *)
Definition only {A} (P : event -> Prop) (m : M A) : Prop :=
  forall w, Forall P (events (m w)).

(** [m] leaves the Job Registry as it is. *)
Definition keeps_registry {A} (m : M A) : Prop :=
  forall w, backgrounds (after (m w)) = backgrounds w
            /\ jobmaps (after (m w)) = jobmaps w.

(** Events other than the marker of a writer. *)
Definition unmarked (ev : event) : Prop :=
  match ev with
  | EvWriter _ => False
  | _ => True
  end.

(** What [clean w] does. *)
Definition closes (w : Sink) : list event :=
  if closable w then [EvClose w] else [].

(** A closure [onFinish] that neither starts a subprocess, nor takes a
    writer, nor touches the Job Registry. *)
Definition tame (onFinish : option (M unit)) : Prop :=
  match onFinish with
  | Some f => only passive f /\ keeps_registry f
  | None => True
  end.

(** The five ways in which lines 194-220 end, with what each leaves in
    the trace: the pipe cannot be made, the subprocess does not start,
    copying fails, the subprocess exits with an error, all goes well. *)
Inductive relay_path (E : Env) (w : Sink) (onFinish : option (M unit)) (args : list string)
    (x : result unit * world * list event) : Prop :=
| path_pipe cause :
    pipe_fault E args = Some cause ->
    outcome x = Err (ErrBackup cause) -> events x = closes w ->
    relay_path E w onFinish args x
| path_start cause :
    start_fault E args = Some cause ->
    outcome x = Err (ErrBackup cause) ->
    events x = EvStart args :: EvCloseStdout :: closes w ->
    relay_path E w onFinish args x
| path_copy data cause :
    copy_result E args = (data, Some cause) ->
    outcome x = Err (ErrBackup cause) ->
    events x = EvStart args :: EvCopy w data :: EvCloseStdout :: closes w ->
    relay_path E w onFinish args x
| path_wait data cause :
    wait_fault E args = Some cause ->
    outcome x = Err (ErrExit cause (Stderr E args)) ->
    events x = EvStart args :: EvCopy w data :: EvWait args :: EvCloseStdout :: closes w ->
    relay_path E w onFinish args x
| path_done data fin :
    match onFinish with
    | Some f => exists st', outcome x = outcome (f st') /\ fin = events (f st')
    | None => outcome x = Ok tt /\ fin = []
    end ->
    events x = EvStart args :: EvCopy w data :: EvWait args :: closes w
               ++ EvCloseStdout :: fin ->
    relay_path E w onFinish args x.

(** Events other than the making of a file. *)
Definition no_create (ev : event) : Prop :=
  match ev with
  | EvCreate _ => False
  | _ => True
  end.

(** Every file made by [os.Create] is closed later on. *)
Fixpoint sealed (evs : list event) : Prop :=
  match evs with
  | [] => True
  | EvCreate path :: rest => In (EvClose (SFile path)) rest /\ sealed rest
  | _ :: rest => sealed rest
  end.

(** ** The request handler [(m *mySQL).Export] (lines 245-413) *)

(** What the handler reads from the request context [m]. *)
Record mySQL := mkMySQL {
  IsPost : bool;
  dbName : string;
  Formx_all : bool;                       (* m.Formx(`all`).Bool() *)
  Get_tableList : option (list string);   (* m.Get(`tableList`).([]string) *)
  getTables : result (list string);       (* m.getTables() *)
  FormValues_table : list string;
  FormValues_view : list string;
  Form_output : string;
  FormValues_type : list string;
  Auth : DbAuth;                          (* *m.DbAuth *)
  Response_id : nat;
  Response_closer : bool
}.

(** [m.Response()], an [io.Writer]. *)
Definition Response (m : mySQL) : Writer :=
  WStream (Response_id m) (Response_closer m).

(** How the handler answers when it returns no error. *)
Inductive reply :=
| BackTo (page : string)   (* m.fail(...); m.returnTo(m.GenURL(page)) *)
| Redirected               (* m.Redirect(m.GenURL(`listTable`, m.dbName)) *)
| Streamed                 (* nil after a foreground export *)
| Started (job : M unit).  (* m.JSON(data); [job] is what is left to run of the
                             goroutine of line 407 *)

(** Lines 254-276: the tables to export. *)
Definition request_tables (m : mySQL) : result (list string) :=
  if Formx_all m then
    match Get_tableList m with
    | Some tables => Ok tables
    | None => getTables m
    end
  else
    let tables := FormValues_table m in
    let tables :=
      match tables with
      | [t] => if (0 <? String.length t)%nat then Split t "," else tables
      | _ => tables
      end in
    let views := FormValues_view m in
    let views :=
      match views with
      | [v] => if (0 <? String.length v)%nat then tables ++ Split v "," else views
      | _ => views
      end in
    let tables := if (0 <? length views)%nat then tables ++ views else tables in
    Ok tables.

(** Lines 281-286: the map of running exports, as a reference.  When
    [backgrounds] holds none, a new map is made that is known to this call
    only. *)
Definition load_exports : M nat :=
  w <- get ;;
  match backgrounds w !! OpExport with
  | Some old => ret old
  | None =>
      let fresh := next w in
      put (set_next (S fresh) (set_jobmaps (<[fresh := ∅]> (jobmaps w)) w)) ;;;
      ret fresh
  end.

(** [exports[key]], [exports[key] = fileInfos], [delete(exports, key)]. *)
Definition map_lookup (exports : nat) (key : string) : M (option nat) :=
  w <- get ;; ret (jobmaps w !! exports ≫= (.!! key)).

Definition map_store (exports : nat) (key : string) (fileInfos : nat) : M unit :=
  modify (fun w => set_jobmaps (alter (insert key fileInfos) exports (jobmaps w)) w).

Definition map_delete (exports : nat) (key : string) : M unit :=
  modify (fun w => set_jobmaps (alter (delete key) exports (jobmaps w)) w).

(** [backgrounds.Store(op, exports)]. *)
Definition backgrounds_Store (op : string) (exports : nat) : M unit :=
  modify (fun w => set_backgrounds (<[op := exports]> (backgrounds w)) w).

(** [fileInfos = &FileInfos{}] and the accesses through that pointer. *)
Definition new_FileInfos : M nat :=
  w <- get ;;
  let fresh := next w in
  put (set_next (S fresh) (set_infos (<[fresh := []]> (infos w)) w)) ;;;
  ret fresh.

Definition read_infos (fileInfos : nat) : M (list FileInfo) :=
  w <- get ;; ret (default [] (infos w !! fileInfos)).

Definition write_infos (fileInfos : nat) (l : list FileInfo) : M unit :=
  modify (fun w => set_infos (<[fileInfos := l]> (infos w)) w).

Definition append_info (fileInfos : nat) (fi : FileInfo) : M unit :=
  l <- read_infos fileInfos ;; write_infos fileInfos (l ++ [fi]).

(** Lines 349-356: the body of the loop over [*fileInfos]. *)
Definition measure (now : Z) (fi : FileInfo) : M FileInfo :=
  sz <- FileSize (Path fi) ;;
  ret (mkFileInfo (Start fi) now (now - Start fi) (Path fi) (fst sz) (Compressed fi)
         (default (Error fi) (snd sz))).

Fixpoint measure_all (now : Z) (l : list FileInfo) : M (list FileInfo) :=
  match l with
  | [] => ret []
  | fi :: l' =>
      fi' <- measure now fi ;;
      l'' <- measure_all now l' ;;
      ret (fi' :: l'')
  end.

(** Lines 368-370: the error of [os.Remove] is dropped. *)
Fixpoint remove_all (E : Env) (sqlFiles : list string) : M unit :=
  match sqlFiles with
  | [] => ret tt
  | sqlFile :: rest => try (Remove E sqlFile) ;;; remove_all E rest
  end.

(** Line 357: the path of the archive. *)
Definition zip_path (E : Env) (m : mySQL) (saveDir nowTime : string) : string :=
  filepath_Join E [saveDir; dbName m +:+ "-sql-" +:+ nowTime +:+ ".zip"].

(** Lines 336-384: the closure [worker], with the variables it captures
    as arguments.  Cancellation of [ctx] shows as a failing start, copy or
    wait of the subprocess; the deferred [recover] has nothing to catch,
    since no modelled call panics. *)
Definition worker (E : Env) (m : mySQL) (cfg : DbAuth) (tables : list string)
    (structWriter dataWriter : Writer) (sqlFiles : list string)
    (fileInfos exports : nat) (cacheKey saveDir nowTime : string) : M unit :=
  exported <- try (Export E cfg tables structWriter dataWriter [true]) ;;
  match exported with
  | Err e => emit (EvLogError e) ;;; throw e
  | Ok _ =>
      if (0 <? length sqlFiles)%nat then
        now <- time_Now E ;;
        l <- read_infos fileInfos ;;
        l' <- measure_all now l ;;
        write_infos fileInfos l' ;;;
        let zipFile := zip_path E m saveDir nowTime in
        zipped <- try (Zip_Make E zipFile sqlFiles) ;;
        match zipped with
        | Err e => emit (EvLogError e) ;;; throw e
        | Ok _ =>
            remove_all E sqlFiles ;;;
            sz <- FileSize zipFile ;;
            finished <- time_Now E ;;
            append_info fileInfos
              (mkFileInfo now finished (finished - now) zipFile (fst sz) true
                 (default "" (snd sz))) ;;;
            manifest <- read_infos fileInfos ;;
            try (WriteFile E (zipFile +:+ ".txt") (DumpInfos E manifest)) ;;;
            found <- map_lookup exports cacheKey ;;
            match found with
            | Some _ => map_delete exports cacheKey
            | None => ret tt
            end
        end
      else ret tt
  end.

(** Lines 313-322 and 323-332: the file of one artifact kind, when that
    kind was asked for. *)
Definition file_target (E : Env) (m : mySQL) (wanted : bool) (kind : string)
    (saveDir nowTime : string) (fileInfos : nat) : M (Writer * list string) :=
  if wanted then
    let file := filepath_Join E [saveDir; dbName m +:+ kind +:+ nowTime +:+ ".sql"] in
    started <- time_Now E ;;
    append_info fileInfos (mkFileInfo started 0 0 file 0 false "") ;;;
    ret (WPath file, [file])
  else ret (WNil, []).

(** The goroutine of a background export is started at line 407, before
    the handler stores the fingerprint again (line 408) and stores the map
    in [backgrounds] (line 409).  After line 407 the handler does nothing
    but these two stores and the reply; the goroutine reads and writes the
    Job Registry at one place only, lines 379-381, and its other steps (the
    dump, the archive, the files, the list behind [fileInfos]) neither read
    nor write what lines 408-409 write.  So what the two leave behind
    depends on one thing: whether lines 379-381 come before line 408
    ([AtOnce]), between lines 408 and 409 ([AfterInsert]), or after line
    409 ([AfterReturn]); the goroutine is run as a whole at its turn. *)
Inductive turn := AtOnce | AfterInsert | AfterReturn.

(** A goroutine that has come to its end with the result [r]: nothing of
    it is left to run. *)
Definition finished (r : result unit) : M unit := fun w => (r, w, []).

(** Lines 407-410.  The reply carries what is left of the goroutine when
    the handler returns: all of it, or nothing but its result. *)
Definition start_job (tn : turn) (exports : nat) (cacheKey : string) (fileInfos : nat)
    (job : M unit) : M reply :=
  match tn with
  | AtOnce =>
      r <- try job ;;
      map_store exports cacheKey fileInfos ;;;
      backgrounds_Store OpExport exports ;;;
      ret (Started (finished r))
  | AfterInsert =>
      map_store exports cacheKey fileInfos ;;;
      r <- try job ;;
      backgrounds_Store OpExport exports ;;;
      ret (Started (finished r))
  | AfterReturn =>
      map_store exports cacheKey fileInfos ;;;
      backgrounds_Store OpExport exports ;;;
      ret (Started job)
  end.

(** The handler, with the turn [tn] of the goroutine it may start.  A
    foreground export ([down], [open]) runs [worker] before it returns and
    starts no goroutine. *)
Definition mySQL_Export_at (E : Env) (m : mySQL) (tn : turn) : M reply :=
  if IsPost m then
    if (String.length (dbName m) =? 0)%nat then ret (BackTo "listDb")
    else
      match request_tables m with
      | Err _ => ret (BackTo "export")
      | Ok tables =>
          let output := Form_output m in
          let types := FormValues_type m in
          let cacheKey := cacheKey tables output types in
          exports <- load_exports ;;
          found <- map_lookup exports cacheKey ;;
          match found with
          | Some _ => throw ErrRunning
          | None =>
              fileInfos <- new_FileInfos ;;
              map_store exports cacheKey fileInfos ;;;
              t <- time_Now E ;;
              let nowTime := itoa (t / 1000000000) in
              saveDir <- TempDir E "export" ;;
              let cfg := mkDbAuth (Host (Auth m)) (Username (Auth m))
                           (Password (Auth m)) (dbName m) (Charset (Auth m)) in
              if String.eqb output "down" || String.eqb output "open" then
                (if String.eqb output "down"
                 then emit (EvHeader (dbName m +:+ "-sql-" +:+ nowTime +:+ ".sql"))
                 else ret tt) ;;;
                let structWriter := if InSlice "struct" types then Response m else WNil in
                let dataWriter := if InSlice "data" types then Response m else WNil in
                worker E m cfg tables structWriter dataWriter [] fileInfos exports
                  cacheKey saveDir nowTime ;;;
                ret Streamed
              else
                s <- file_target E m (InSlice "struct" types) "-struct-" saveDir nowTime fileInfos ;;
                d <- file_target E m (InSlice "data" types) "-data-" saveDir nowTime fileInfos ;;
                let job := worker E m cfg tables (fst s) (fst d) (snd s ++ snd d)
                             fileInfos exports cacheKey saveDir nowTime in
                start_job tn exports cacheKey fileInfos job
          end
      end
  else ret Redirected.

(** The handler when the goroutine of a background export comes to lines
    379-381 only after the handler has returned: [Started job] hands the
    goroutine back, to be run on the world the handler left or on a later
    one. *)
Definition mySQL_Export (E : Env) (m : mySQL) : M reply := mySQL_Export_at E m AfterReturn.

(** What is left of the goroutine a reply carries, run to its end. *)
Definition run_job (r : result reply) : M unit :=
  match r with
  | Ok (Started job) => job
  | _ => ret tt
  end.

(** The entry of the Job Registry for [key]: what a later request finds at
    lines 282-287. *)
Definition registered (w : world) (key : string) : option nat :=
  backgrounds w !! OpExport ≫= (fun exports => jobmaps w !! exports ≫= (.!! key)).

(** ** Concrete surroundings for the examples *)

Definition empty_world : world := mkWorld ∅ ∅ 0 ∅ ∅ ∅ 0.

(** An environment in which nothing fails: paths are joined with [/],
    every subprocess prints two bytes and time advances by one second per
    reading of the clock. *)
Definition quiet : Env :=
  mkEnv ["utf8"; "utf8mb4"] "/tmp"
    (fun l => foldr (fun a b => if (String.length b =? 0)%nat then a else a +:+ "/" +:+ b) "" l)
    (fun _ => "/tmp/dbmanager/cache/export")
    (fun _ => None) (fun _ => None) (fun _ => None) (fun _ => None)
    (fun _ => ([x41; x42], None)) (fun _ => None) (fun _ => "")
    (fun _ => None) (fun _ _ => None) (fun l => concat l)
    (fun n => 1000000000 * Z.of_nat n) (fun _ => [])
    (fun _ _ => None) (fun _ => None).

(** As [quiet], but the archiver fails. *)
Definition zip_broken : Env :=
  mkEnv (Charsets quiet) (SQLTempDir quiet) (filepath_Join quiet) (filepath_Dir quiet)
    (mkdir_fault quiet) (create_fault quiet) (pipe_fault quiet) (start_fault quiet)
    (copy_result quiet) (wait_fault quiet) (Stderr quiet) (write_fault quiet)
    (fun _ _ => Some "disk full") (zip_bytes quiet) (Now quiet) (DumpInfos quiet)
    (write_torn quiet) (remove_fault quiet).

(** As [quiet], but mysqldump exits with an error. *)
Definition dump_broken : Env :=
  mkEnv (Charsets quiet) (SQLTempDir quiet) (filepath_Join quiet) (filepath_Dir quiet)
    (mkdir_fault quiet) (create_fault quiet) (pipe_fault quiet) (start_fault quiet)
    (copy_result quiet) (fun _ => Some "exit status 2") (fun _ => "Got error: 1045")
    (write_fault quiet) (zip_fault quiet) (zip_bytes quiet) (Now quiet) (DumpInfos quiet)
    (write_torn quiet) (remove_fault quiet).

Definition shop_auth : DbAuth := mkDbAuth "db:3307" "root" "pw" "" "utf8".

(** [shop_auth] with the database filled in, as line 335 does. *)
Definition shop_cfg : DbAuth := mkDbAuth "db:3307" "root" "pw" "shop" "utf8".

Definition shop_tables : list string := ["users"; "orders"].

Definition struct_file : string := "/tmp/dbmanager/cache/export/shop-struct-0.sql".
Definition data_file : string := "/tmp/dbmanager/cache/export/shop-data-0.sql".

(** A POST for the tables [users] and [orders] of database [shop], both
    artifact kinds, with the given output mode. *)
Definition shop_request (output : string) : mySQL :=
  mkMySQL true "shop" false None (Ok []) ["users,orders"] [] output ["struct"; "data"]
    shop_auth 7 false.

(** A background export is submitted to a server that has just started
    and then runs to its end; after that the same tables are asked for in
    the foreground ([open]), twice. *)
Definition background_submitted := mySQL_Export quiet (shop_request "") empty_world.
Definition background_done :=
  run_job (outcome background_submitted) (after background_submitted).
Definition foreground_first :=
  mySQL_Export quiet (shop_request "open") (after background_done).
Definition foreground_again :=
  mySQL_Export quiet (shop_request "open") (after foreground_first).

(** The same background export with a failing archiver. *)
Definition archive_submitted := mySQL_Export zip_broken (shop_request "") empty_world.


(** * Further definitions *)

From stdpp Require Import sorting.

Open Scope Z_scope.

(** The files a writer handed to [Export] names. *)
Definition writer_paths (writer : Writer) : list string :=
  match writer with
  | WPath v => [v]
  | _ => []
  end.

(** [m] changes no file outside [paths]. *)
Definition touches_only {A} (paths : list string) (m : M A) : Prop :=
  forall st p, ~ In p paths -> files (after (m st)) !! p = files st !! p.

(** The content of the file of pass [index] once the pass is over: what
    mysqldump printed, without the counters for a structure file when the
    reset was asked for (lines 182-190). *)
Definition finished_content (index : nat) (resetAutoIncrement : bool)
    (out : list byte) : list byte :=
  if (0 <? index)%nat then out
  else if resetAutoIncrement then cleanRegExp_ReplaceAll out
  else out.

(** Nothing fails in a pass that writes the output [out] of mysqldump, run
    with [args], to the file [v]. *)
Definition runs_clean (E : Env) (v : string) (args : list string)
    (out : list byte) : Prop :=
  mkdir_fault E (filepath_Dir E v) = None /\ create_fault E v = None
  /\ pipe_fault E args = None /\ start_fault E args = None
  /\ copy_result E args = (out, None) /\ wait_fault E args = None.

(** ** [getCharsetList] (lines 235-243) *)

(** [sort.Strings]: increasing order, strings compared byte by byte. *)
Definition sort_Strings (l : list string) : list string := merge_sort String.le l.

(** The [range] loop over the map [e] that [m.getCharsets()] returned meets
    each key once, in an order that Go leaves open. *)
Definition ranges_over {V} (e : gmap string V) (order : list string) : Prop :=
  order ≡ₚ elements (dom e).

(** [getCharsetList], given the order in which the loop meets the keys: the
    keys are appended one by one to an empty slice, which is then sorted. *)
Definition getCharsetList (order : list string) : list string :=
  let cs := foldl (fun cs k => cs ++ [k]) [] order in
  sort_Strings cs.

(** ** The successful end of [worker] (lines 347-383) *)

(** Lines 350-355 for one entry, given the files [fs] present. *)
Definition measured (fs : gmap string (list byte)) (now : Z) (fi : FileInfo) : FileInfo :=
  mkFileInfo (Start fi) now (now - Start fi) (Path fi)
    (match fs !! Path fi with Some b => Z.of_nat (length b) | None => 0 end)
    (Compressed fi)
    (match fs !! Path fi with Some _ => Error fi | None => "no such file or directory" end).

(** The files left by the loop of lines 368-370: a file whose removal
    fails stays. *)
Definition remove_files (E : Env) (sqlFiles : list string) (fs : gmap string (list byte))
    : gmap string (list byte) :=
  foldl (fun fs f => match remove_fault E f with Some _ => fs | None => delete f fs end)
    fs sqlFiles.

(** The files left by [ioutil.WriteFile path b], whether it fails or not. *)
Definition written (E : Env) (path : string) (b : list byte)
    (fs : gmap string (list byte)) : gmap string (list byte) :=
  match write_fault E path with
  | None => <[path := b]> fs
  | Some _ =>
      match write_torn E path b with
      | Some torn => <[path := torn]> fs
      | None => fs
      end
  end.

(** The archive that [archiver.Zip.Make] writes from the files [fs]. *)
Definition archive_of (E : Env) (sqlFiles : list string) (fs : gmap string (list byte))
    : list byte :=
  zip_bytes E (map (fun f => default [] (fs !! f)) sqlFiles).

(** Lines 358-362 and 371-376: the entry of the archive. *)
Definition archive_info (zipFile : string) (now finished : Z) (size : option Z) : FileInfo :=
  mkFileInfo now finished (finished - now) zipFile (default 0 size) true
    (match size with Some _ => "" | None => "no such file or directory" end).
(** * Facts about strings *)

Section StringFacts.

Lemma sapp_nil s : "" +:+ s = s.
Proof. reflexivity. Qed.

Lemma sapp_cons a h r : String a h +:+ r = String a (h +:+ r).
Proof. reflexivity. Qed.

Lemma sapp_assoc a b c : (a +:+ b) +:+ c = a +:+ (b +:+ c).
Proof.
  induction a as [|x a IH]; [reflexivity|].
  rewrite !sapp_cons, IH. reflexivity.
Qed.

Lemma sapp_snoc h c r : (h +:+ String c "") +:+ r = h +:+ String c r.
Proof. rewrite sapp_assoc. reflexivity. Qed.

Lemma sapp_length h r :
  String.length (h +:+ r) = (String.length h + String.length r)%nat.
Proof.
  induction h as [|c h IH]; [reflexivity|].
  rewrite sapp_cons. simpl. rewrite IH. reflexivity.
Qed.

Lemma substring_prefix h : forall r,
  String.substring 0 (String.length h) (h +:+ r) = h.
Proof.
  induction h as [|c h IH]; intros r.
  - rewrite sapp_nil. destruct r; reflexivity.
  - rewrite sapp_cons. simpl. rewrite IH. reflexivity.
Qed.

Lemma substring_all r : String.substring 0 (String.length r) r = r.
Proof. induction r as [|c r IH]; simpl; [reflexivity | rewrite IH; reflexivity]. Qed.

Lemma substring_suffix h : forall r,
  String.substring (String.length h) (String.length r) (h +:+ r) = r.
Proof.
  induction h as [|c h IH]; intros r.
  - apply substring_all.
  - rewrite sapp_cons. simpl. apply IH.
Qed.

Lemma HasPrefix_colon s :
  HasPrefix s ":" =
  match s with
  | String c _ => Ascii.eqb c colon
  | EmptyString => false
  end.
Proof.
  destruct s as [|c s]; [reflexivity|]. cbn [HasPrefix].
  destruct s; rewrite andb_true_r; apply Ascii.eqb_sym.
Qed.

Lemma LastIndex_from_free s : forall i last,
  colon_free s = true -> LastIndex_from i s ":" last = last.
Proof.
  induction s as [|c s IH]; intros i last H; [reflexivity|].
  simpl in H. apply andb_true_iff in H as [Hc Hs].
  cbn [LastIndex_from]. rewrite HasPrefix_colon.
  apply negb_true_iff in Hc. rewrite Hc. apply IH, Hs.
Qed.

Lemma LastIndex_from_last h : forall r i last,
  colon_free r = true ->
  LastIndex_from i (h +:+ String colon r) ":" last = i + len h.
Proof.
  induction h as [|c h IH]; intros r i last Hr.
  - rewrite sapp_nil. cbn [LastIndex_from].
    rewrite HasPrefix_colon, Ascii.eqb_refl.
    rewrite LastIndex_from_free by exact Hr. unfold len. simpl. lia.
  - rewrite sapp_cons. cbn [LastIndex_from]. rewrite IH by exact Hr.
    unfold len. cbn [String.length]. lia.
Qed.

End StringFacts.

(** * Host and port (lines 108-116) *)

Section HostPort.

Lemma host_port_no_colon Host :
  colon_free Host = true -> Export_host_port Host = (Host, "3306").
Proof.
  intros H. unfold Export_host_port, LastIndex.
  rewrite LastIndex_from_free by exact H. reflexivity.
Qed.

Lemma host_port_leading r :
  colon_free r = true ->
  Export_host_port (String colon r) = (String colon r, "3306").
Proof.
  intros H. unfold Export_host_port, LastIndex.
  pose proof (LastIndex_from_last "" r 0 (-1) H) as HL.
  rewrite sapp_nil in HL. rewrite HL. reflexivity.
Qed.

Lemma host_port_split h r :
  h <> "" -> colon_free r = true ->
  Export_host_port (h +:+ String colon r)
  = (h, if len r =? 0 then "3306" else r).
Proof.
  intros Hh Hr. unfold Export_host_port, LastIndex.
  rewrite LastIndex_from_last by exact Hr.
  assert (Hpos : 0 < len h).
  { unfold len. destruct h; [congruence | simpl; lia]. }
  replace (0 <? 0 + len h) with true by (symmetry; apply Z.ltb_lt; lia).
  unfold slice.
  replace (Z.to_nat (0 + len h - 0)) with (String.length h) by (unfold len; lia).
  replace (Z.to_nat 0) with 0%nat by reflexivity.
  rewrite substring_prefix.
  replace (Z.to_nat (0 + len h + 1)) with (String.length (h +:+ String colon "")).
  2:{ rewrite sapp_length. unfold len. simpl. lia. }
  replace (Z.to_nat (len (h +:+ String colon r) - (0 + len h + 1)))
    with (String.length r).
  2:{ unfold len. rewrite sapp_length. simpl. lia. }
  rewrite <- (sapp_snoc h colon r).
  rewrite substring_suffix. reflexivity.
Qed.

(** C10 (as stated): a host string whose last colon is its last byte is
    split all the same; the host handed to mysqldump is the part before the
    colon, not the whole string. *)
Lemma host_port_trailing_colon_counterexample :
  colon_free "localhost:" = false
  /\ slice "localhost:" (LastIndex "localhost:" ":" + 1) (len "localhost:") = ""
  /\ Export_host_port "localhost:" = ("localhost", "3306")
  /\ fst (Export_host_port "localhost:") <> "localhost:".
Proof. repeat split; try reflexivity. discriminate. Qed.

(** C10 (amended): [Export] takes the whole configured string as host and
    [3306] as port when the string has no colon or its only colon is the
    first byte; otherwise it splits at the last colon, the host is the part
    before it, and the port is the part after it, or [3306] when that part
    is empty. *)
Theorem Export_host_port_split :
  (forall Host, colon_free Host = true ->
     Export_host_port Host = (Host, "3306"))
  /\ (forall r, colon_free r = true ->
        Export_host_port (String colon r) = (String colon r, "3306"))
  /\ (forall h r, h <> "" -> colon_free r = true ->
        Export_host_port (h +:+ String colon r)
        = (h, if len r =? 0 then "3306" else r)).
Proof.
  split; [|split].
  - exact host_port_no_colon.
  - exact host_port_leading.
  - exact host_port_split.
Qed.

Lemma Export_host_port_split_witness :
  Export_host_port "localhost" = ("localhost", "3306")
  /\ Export_host_port ":3307" = (":3307", "3306")
  /\ Export_host_port "[::1]:3307" = ("[::1]", "3307")
  /\ Export_host_port "localhost:" = ("localhost", "3306").
Proof.
  destruct Export_host_port_split as (H1 & H2 & H3).
  split; [|split; [|split]].
  - apply (H1 "localhost"). reflexivity.
  - apply (H2 "3307"). reflexivity.
  - apply (H3 "[::1]" "3307"); [discriminate | reflexivity].
  - apply (H3 "localhost" ""); [discriminate | reflexivity].
Defined.

End HostPort.
(** * The regular expression (lines 61 and 231) *)

Section CleanRegExp.

Local Open Scope nat_scope.

Lemma has_prefix_true p s : has_prefix p s = true <-> exists r, s = p ++ r.
Proof.
  revert s; induction p as [|a p IH]; intros s; simpl.
  - split; eauto.
  - destruct s as [|b s].
    + split; [discriminate | intros [r Hr]; discriminate].
    + rewrite andb_true_iff, IH. split.
      * intros [Hab [r ->]]. apply Byte.byte_dec_bl in Hab. subst. eauto.
      * intros [r Hr]. injection Hr as -> ->. split; [apply Byte.byte_dec_lb; reflexivity | eauto].
Qed.

Lemma skip_while_split f s :
  exists l, s = l ++ skip_while f s /\ Forall (fun b => f b = true) l.
Proof.
  induction s as [|b s [l [Hl Hf]]]; simpl.
  - exists []. split; [reflexivity | constructor].
  - destruct (f b) eqn:Hb.
    + exists (b :: l). split; [simpl; congruence | constructor; assumption].
    + exists []. split; [reflexivity | constructor].
Qed.

Lemma match_here_split s rest :
  match_here s = Some rest ->
  exists ds ws, s = pattern_head ++ ds ++ ws ++ rest
    /\ Forall (fun b => is_digit b = true) ds
    /\ Forall (fun b => is_space b = true) ws.
Proof.
  unfold match_here. destruct (has_prefix pattern_head s) eqn:Hp; [|discriminate].
  apply has_prefix_true in Hp as [r ->]. intros [= <-].
  rewrite drop_0.
  destruct (skip_while_split is_digit r) as [ds [Hds Fds]].
  destruct (skip_while_split is_space (skip_while is_digit r)) as [ws [Hws Fws]].
  exists ds, ws. split; [|split]; try assumption.
  rewrite <- Hws, <- Hds. reflexivity.
Qed.

Lemma match_here_shorter s rest :
  match_here s = Some rest -> length rest < length s.
Proof.
  intros H. apply match_here_split in H as (ds & ws & -> & _ & _).
  rewrite !length_app. simpl. lia.
Qed.

Lemma replace_all_fuel fuel1 : forall fuel2 s,
  length s <= fuel1 -> length s <= fuel2 ->
  replace_all fuel1 s = replace_all fuel2 s.
Proof.
  induction fuel1 as [|fuel1 IH]; intros fuel2 s H1 H2.
  - destruct s; [|simpl in H1; lia]. destruct fuel2; reflexivity.
  - destruct s as [|c t]; [destruct fuel2; reflexivity|].
    destruct fuel2 as [|fuel2]; [simpl in H2; lia|].
    simpl in H1, H2. cbn [replace_all].
    destruct (match_here (c :: t)) as [rest|] eqn:Hm.
    + apply match_here_shorter in Hm. simpl in Hm.
      f_equal. apply IH; lia.
    + f_equal. apply IH; lia.
Qed.

Lemma strip_nil : cleanRegExp_ReplaceAll [] = [].
Proof. reflexivity. Qed.

Lemma strip_match s rest :
  match_here s = Some rest ->
  cleanRegExp_ReplaceAll s = x20 :: cleanRegExp_ReplaceAll rest.
Proof.
  intros Hm. unfold cleanRegExp_ReplaceAll.
  pose proof (match_here_shorter _ _ Hm) as Hlt.
  destruct s as [|c t]; [discriminate|].
  cbn [length replace_all]. rewrite Hm. f_equal.
  simpl in Hlt. apply replace_all_fuel; lia.
Qed.

Lemma strip_skip c t :
  match_here (c :: t) = None ->
  cleanRegExp_ReplaceAll (c :: t) = c :: cleanRegExp_ReplaceAll t.
Proof.
  intros Hm. unfold cleanRegExp_ReplaceAll.
  cbn [length replace_all]. rewrite Hm. reflexivity.
Qed.

Lemma match_here_head s rest : match_here s = Some rest -> exists t, s = x20 :: t.
Proof.
  intros H. apply match_here_split in H as (ds & ws & -> & _). simpl. eauto.
Qed.

(** Output bytes other than the space come unchanged from the input. *)
Lemma strip_plain_prefix l : forall t post,
  Forall (fun b => b <> x20) l ->
  cleanRegExp_ReplaceAll t = l ++ post ->
  exists t', t = l ++ t' /\ cleanRegExp_ReplaceAll t' = post.
Proof.
  induction l as [|a l IH]; intros t post Hl Hs.
  - exists t. split; [reflexivity | exact Hs].
  - inversion Hl as [|? ? Ha Hl']; subst.
    destruct t as [|c t]; [discriminate|].
    destruct (match_here (c :: t)) as [rest|] eqn:Hm.
    + rewrite (strip_match _ _ Hm) in Hs. simpl in Hs. congruence.
    + rewrite (strip_skip _ _ Hm) in Hs. simpl in Hs. injection Hs as -> Hs.
      destruct (IH _ _ Hl' Hs) as [t' [-> Ht']]. eauto.
Qed.

Lemma literal_plain : Forall (fun b => b <> x20) literal.
Proof. repeat constructor; discriminate. Qed.

Lemma adjacent_match_app l s :
  adjacent_match s = true -> adjacent_match (l ++ s) = true.
Proof.
  intros H. induction l as [|a l IH]; [exact H|].
  simpl. rewrite IH. apply orb_true_r.
Qed.

Lemma strip_occurs_adjacent n : forall s, length s <= n ->
  occurs pattern_head (cleanRegExp_ReplaceAll s) -> adjacent_match s = true.
Proof.
  induction n as [|n IH]; intros s Hn (pre & post & Hs).
  - destruct s; [|simpl in Hn; lia]. destruct pre; discriminate.
  - destruct s as [|c t]; [destruct pre; discriminate|].
    destruct (match_here (c :: t)) as [rest|] eqn:Hm.
    + rewrite (strip_match _ _ Hm) in Hs.
      pose proof (match_here_shorter _ _ Hm) as Hlt. simpl in Hlt, Hn.
      destruct pre as [|p pre]; simpl in Hs.
      * injection Hs as Hs.
        destruct (strip_plain_prefix _ _ _ literal_plain Hs) as [t' [Hr _]].
        cbn [adjacent_match]. rewrite Hm.
        replace (has_prefix literal rest) with true; [reflexivity|].
        symmetry. apply has_prefix_true. eauto.
      * injection Hs as Hp Hs.
        assert (Hadj : adjacent_match rest = true).
        { apply IH; [lia|]. exists pre, post. exact Hs. }
        apply match_here_split in Hm as (ds & ws & -> & _).
        rewrite !app_assoc. apply adjacent_match_app. exact Hadj.
    + rewrite (strip_skip _ _ Hm) in Hs. simpl in Hn.
      destruct pre as [|p pre]; simpl in Hs; injection Hs as Hp Hs.
      * destruct (strip_plain_prefix _ _ _ literal_plain Hs) as [t' [-> _]].
        subst c. exfalso.
        assert (Hp : has_prefix pattern_head (x20 :: literal ++ t') = true).
        { apply has_prefix_true. exists t'. reflexivity. }
        unfold match_here in Hm. rewrite Hp in Hm. discriminate.
      * cbn [adjacent_match]. rewrite Hm. simpl.
        apply IH; [lia|]. exists pre, post. exact Hs.
Qed.

Lemma strip_fixed t : ~ occurs pattern_head t -> cleanRegExp_ReplaceAll t = t.
Proof.
  induction t as [|c t IH]; intros Hno; [reflexivity|].
  destruct (match_here (c :: t)) as [rest|] eqn:Hm.
  - exfalso. apply Hno. apply match_here_split in Hm as (ds & ws & -> & _).
    exists [], (ds ++ ws ++ rest). reflexivity.
  - rewrite (strip_skip _ _ Hm). f_equal. apply IH.
    intros (pre & post & ->). apply Hno. exists (c :: pre), post. reflexivity.
Qed.

(** C7 (as stated): the transform is not idempotent on every input, and
    an [AUTO_INCREMENT=<n>] can survive it.  The first match swallows the
    white space in front of the second counter, which is then no longer
    preceded by a space; a second application removes it.  A counter that
    no space precedes is never touched. *)
Lemma strip_not_idempotent_counterexample :
  let b := list_byte_of_string " AUTO_INCREMENT=1 AUTO_INCREMENT=2" in
  cleanRegExp_ReplaceAll b = list_byte_of_string " AUTO_INCREMENT=2"
  /\ cleanRegExp_ReplaceAll (cleanRegExp_ReplaceAll b) = list_byte_of_string " "
  /\ cleanRegExp_ReplaceAll (cleanRegExp_ReplaceAll b) <> cleanRegExp_ReplaceAll b
  /\ cleanRegExp_ReplaceAll (list_byte_of_string "(AUTO_INCREMENT=5)")
     = list_byte_of_string "(AUTO_INCREMENT=5)".
Proof.
  cbv zeta. split; [reflexivity|]. split; [reflexivity|].
  split; [vm_compute; discriminate | reflexivity].
Qed.

(** C7 (amended): on every input in which no match of the pattern is
    directly followed by the text [AUTO_INCREMENT=], the transform is
    idempotent and its output holds no [AUTO_INCREMENT=] preceded by a
    space. *)
Theorem strip_idempotent s :
  adjacent_match s = false ->
  cleanRegExp_ReplaceAll (cleanRegExp_ReplaceAll s) = cleanRegExp_ReplaceAll s
  /\ ~ occurs pattern_head (cleanRegExp_ReplaceAll s).
Proof.
  intros Hadj.
  assert (Hno : ~ occurs pattern_head (cleanRegExp_ReplaceAll s)).
  { intros Ho. apply (strip_occurs_adjacent (length s)) in Ho; [congruence | lia]. }
  split; [apply strip_fixed; exact Hno | exact Hno].
Qed.

Lemma strip_idempotent_witness :
  let b := list_byte_of_string
    ") ENGINE=InnoDB AUTO_INCREMENT=42 DEFAULT CHARSET=utf8; ) AUTO_INCREMENT=7;" in
  adjacent_match b = false
  /\ cleanRegExp_ReplaceAll b
     = list_byte_of_string ") ENGINE=InnoDB DEFAULT CHARSET=utf8; ) ;"
  /\ cleanRegExp_ReplaceAll (cleanRegExp_ReplaceAll b) = cleanRegExp_ReplaceAll b
  /\ ~ occurs pattern_head (cleanRegExp_ReplaceAll b).
Proof.
  split; [reflexivity|]. split; [reflexivity|].
  apply (strip_idempotent
    (list_byte_of_string
       ") ENGINE=InnoDB AUTO_INCREMENT=42 DEFAULT CHARSET=utf8; ) AUTO_INCREMENT=7;")).
  reflexivity.
Defined.

End CleanRegExp.

(** * The request fingerprint (line 279) *)

Section Fingerprint.

Lemma json_safe_not_quote c : json_safe c = true -> c <> dquote.
Proof.
  intros H ->. vm_compute in H. discriminate.
Qed.

Lemma json_escape_safe c : json_safe c = true -> json_escape c = String c "".
Proof. intros H. unfold json_escape. rewrite H. reflexivity. Qed.

Lemma plain_cons c s : plain (String c s) = true -> json_safe c = true /\ plain s = true.
Proof.
  unfold plain. cbn [list_ascii_of_string forallb].
  rewrite !andb_true_iff. tauto.
Qed.

Lemma json_chars_plain s : plain s = true -> json_chars s = s.
Proof.
  induction s as [|c s IH]; [reflexivity|].
  intros [Hc Hs]%plain_cons.
  cbn [json_chars]. rewrite json_escape_safe, IH by assumption. reflexivity.
Qed.

(** A quoted plain name can be read back from the front of a text. *)
Lemma json_string_parse a : forall b r1 r2,
  plain a = true -> plain b = true ->
  json_string a +:+ r1 = json_string b +:+ r2 -> a = b /\ r1 = r2.
Proof.
  unfold json_string.
  induction a as [|x a IH]; intros b r1 r2 Ha Hb;
    rewrite (json_chars_plain _ Ha), (json_chars_plain _ Hb);
    rewrite !sapp_cons; intros [= H].
  - destruct b as [|y b].
    + rewrite !sapp_nil, !sapp_cons, !sapp_nil in H. injection H as H. auto.
    + apply plain_cons in Hb as [Hy _].
      rewrite !sapp_nil, !sapp_cons in H. injection H as Hq _.
      exfalso. symmetry in Hq. exact (json_safe_not_quote _ Hy Hq).
  - apply plain_cons in Ha as [Hx Ha].
    destruct b as [|y b].
    + rewrite !sapp_nil, !sapp_cons in H. injection H as Hq _.
      exfalso. exact (json_safe_not_quote _ Hx Hq).
    + apply plain_cons in Hb as [Hy Hb].
      rewrite !sapp_cons in H. injection H as -> H.
      destruct (IH b r1 r2 Ha Hb) as [-> ->]; [|auto].
      rewrite (json_chars_plain _ Ha), (json_chars_plain _ Hb), !sapp_cons.
      f_equal. exact H.
Qed.

Lemma json_items_parse pad l : forall x x' l' r1 r2,
  forallb plain (x :: l) = true -> forallb plain (x' :: l') = true ->
  json_items pad x l +:+ String newline r1 = json_items pad x' l' +:+ String newline r2 ->
  x :: l = x' :: l'.
Proof.
  induction l as [|y l IH]; intros x x' l' r1 r2 Hl Hl' H;
    cbn [forallb] in Hl, Hl';
    apply andb_true_iff in Hl as [Hx Hl]; apply andb_true_iff in Hl' as [Hx' Hl'];
    destruct l' as [|y' l']; cbn [json_items] in H;
    rewrite !sapp_assoc in H; apply (inj (String.app pad)) in H;
    apply json_string_parse in H as [-> H]; try assumption.
  - reflexivity.
  - rewrite sapp_cons in H. discriminate.
  - rewrite sapp_cons in H. discriminate.
  - rewrite !sapp_cons in H. injection H as H.
    f_equal. apply (IH y y' l' r1 r2); assumption.
Qed.

Lemma Dump_tables_inj t t' o o' ty ty' :
  forallb plain t = true -> forallb plain t' = true ->
  Dump t o ty = Dump t' o' ty' -> t = t'.
Proof.
  intros Ht Ht' H. unfold Dump in H.
  rewrite !sapp_cons in H. injection H as H.
  rewrite !sapp_nil in H.
  destruct t as [|x l], t' as [|x' l']; cbn [json_slice] in H.
  - reflexivity.
  - discriminate.
  - discriminate.
  - rewrite !sapp_cons in H. injection H as H.
    rewrite !sapp_assoc in H.
    exact (json_items_parse _ _ _ _ _ _ _ Ht Ht' H).
Qed.

(** C1 (as stated): two requests with the same tables in another order,
    the same output mode and the same kinds get different fingerprints. *)
Lemma cacheKey_permutation_counterexample :
  Permutation ["a"; "b"] ["b"; "a"]
  /\ cacheKey ["a"; "b"] "open" ["struct"] = "a7719536ce75b7729a4113470a36144d"
  /\ cacheKey ["b"; "a"] "open" ["struct"] = "07fee2c8e37d25598f9c478afc2ebdbc"
  /\ cacheKey ["a"; "b"] "open" ["struct"] <> cacheKey ["b"; "a"] "open" ["struct"].
Proof.
  split; [apply perm_swap|].
  split; [vm_compute; reflexivity|].
  split; [vm_compute; reflexivity|].
  vm_compute. discriminate.
Qed.

(** C1 (amended): the fingerprint is the MD5 digest of a text that keeps
    the table list in the order supplied.  Requests with the same ordered
    table list, output mode and kinds get the same fingerprint; for table
    names of JSON-safe bytes, the hashed texts of two requests agree only
    if their table lists are equal as sequences. *)
Theorem cacheKey_follows_table_order t t' o o' ty ty' :
  forallb plain t = true -> forallb plain t' = true ->
  cacheKey t o ty = Md5 (Dump t o ty)
  /\ (t = t' -> o = o' -> ty = ty' -> cacheKey t o ty = cacheKey t' o' ty')
  /\ (Dump t o ty = Dump t' o' ty' -> t = t').
Proof.
  intros Ht Ht'. split; [reflexivity|]. split.
  - intros -> -> ->. reflexivity.
  - apply Dump_tables_inj; assumption.
Qed.

Lemma cacheKey_follows_table_order_witness :
  Dump ["users"; "orders"] "open" ["struct"] <> Dump ["orders"; "users"] "open" ["struct"].
Proof.
  intros H.
  assert (Hp : forallb plain ["users"; "orders"] = true) by reflexivity.
  assert (Hp' : forallb plain ["orders"; "users"] = true) by reflexivity.
  destruct (cacheKey_follows_table_order
              ["users"; "orders"] ["orders"; "users"] "open" "open"
              ["struct"] ["struct"] Hp Hp') as (_ & _ & Hinj).
  specialize (Hinj H). discriminate Hinj.
Defined.

End Fingerprint.
(** * The monad *)

Section MonadFacts.

Context {A B : Type}.
Implicit Types (m : M A) (k : A -> M B) (w : world).

Lemma outcome_bind m k w :
  outcome (bind m k w)
  = match outcome (m w) with
    | Ok a => outcome (k a (after (m w)))
    | Err e => Err e
    end.
Proof.
  unfold bind, outcome, after. destruct (m w) as [[[a|e] w1] evs1]; simpl; [|reflexivity].
  destruct (k a w1) as [[r w2] evs2]. reflexivity.
Qed.

Lemma after_bind m k w :
  after (bind m k w)
  = match outcome (m w) with
    | Ok a => after (k a (after (m w)))
    | Err e => after (m w)
    end.
Proof.
  unfold bind, outcome, after. destruct (m w) as [[[a|e] w1] evs1]; simpl; [|reflexivity].
  destruct (k a w1) as [[r w2] evs2]. reflexivity.
Qed.

Lemma events_bind m k w :
  events (bind m k w)
  = match outcome (m w) with
    | Ok a => events (m w) ++ events (k a (after (m w)))
    | Err e => events (m w)
    end.
Proof.
  unfold bind, outcome, after, events.
  destruct (m w) as [[[a|e] w1] evs1]; simpl; [|reflexivity].
  destruct (k a w1) as [[r w2] evs2]. reflexivity.
Qed.

Lemma only_bind (P : event -> Prop) m k :
  only P m -> (forall a, only P (k a)) -> only P (bind m k).
Proof.
  intros Hm Hk w. rewrite events_bind.
  destruct (outcome (m w)); [apply Forall_app; split; [apply Hm | apply Hk] | apply Hm].
Qed.

Lemma keeps_bind m k :
  keeps_registry m -> (forall a, keeps_registry (k a)) -> keeps_registry (bind m k).
Proof.
  intros Hm Hk w. rewrite after_bind.
  destruct (outcome (m w)) as [a|e]; [|apply Hm].
  destruct (Hk a (after (m w))) as [-> ->]. apply Hm.
Qed.

Lemma only_try (P : event -> Prop) m : only P m -> only P (try m).
Proof.
  intros Hm w. specialize (Hm w). unfold try, events in *.
  destruct (m w) as [[r w1] evs1]. exact Hm.
Qed.

Lemma keeps_try m : keeps_registry m -> keeps_registry (try m).
Proof.
  intros Hm w. specialize (Hm w). unfold try, after in *.
  destruct (m w) as [[r w1] evs1]. exact Hm.
Qed.

Lemma only_ret (P : event -> Prop) (a : A) : only P (ret a).
Proof. intros w. constructor. Qed.

Lemma only_throw (P : event -> Prop) e : only P (@throw A e).
Proof. intros w. constructor. Qed.

Lemma keeps_ret (a : A) : keeps_registry (ret a).
Proof. intros w. split; reflexivity. Qed.

Lemma keeps_throw e : keeps_registry (@throw A e).
Proof. intros w. split; reflexivity. Qed.

End MonadFacts.

Lemma run_eta {A} (x : result A * world * list event) :
  x = (outcome x, after x, events x).
Proof. destruct x as [[r w] evs]. reflexivity. Qed.

Section PrimitiveFacts.

Variable E : Env.
Variable P : event -> Prop.

Lemma only_emit ev : P ev -> only P (emit ev).
Proof. intros H w. repeat constructor. exact H. Qed.

Lemma only_get : only P get.
Proof. intros w. constructor. Qed.

Lemma only_put w' : only P (put w').
Proof. intros w. constructor. Qed.

Lemma only_modify f : only P (modify f).
Proof. intros w. constructor. Qed.

Lemma keeps_emit ev : keeps_registry (emit ev).
Proof. intros w. split; reflexivity. Qed.

Lemma keeps_get : keeps_registry get.
Proof. intros w. split; reflexivity. Qed.

Lemma keeps_modify f :
  (forall w, backgrounds (f w) = backgrounds w /\ jobmaps (f w) = jobmaps w) ->
  keeps_registry (modify f).
Proof. intros H w. apply H. Qed.

End PrimitiveFacts.

Create HintDb run discriminated.

#[local] Hint Resolve only_ret only_throw only_get only_put only_modify
  keeps_ret keeps_throw keeps_emit keeps_get : run.
#[local] Hint Extern 1 (only _ (emit _)) => apply only_emit; exact I : run.
#[local] Hint Extern 1 (only _ (bind _ _)) => apply only_bind; [|intros ?] : run.
#[local] Hint Extern 1 (keeps_registry (bind _ _)) => apply keeps_bind; [|intros ?] : run.
#[local] Hint Extern 1 (only _ (try _)) => apply only_try : run.
#[local] Hint Extern 1 (keeps_registry (try _)) => apply keeps_try : run.
#[local] Hint Extern 1 (keeps_registry (modify _)) =>
  apply keeps_modify; intros ?; split; reflexivity : run.
#[local] Hint Extern 2 (only _ (match ?x with _ => _ end)) => destruct x : run.
#[local] Hint Extern 2 (keeps_registry (match ?x with _ => _ end)) => destruct x : run.
#[local] Hint Extern 2 (only _ (if ?x then _ else _)) => destruct x : run.
#[local] Hint Extern 2 (keeps_registry (if ?x then _ else _)) => destruct x : run.

Section SystemFacts.

Variable E : Env.

Lemma only_IsDir P dir : only P (IsDir dir).
Proof. unfold IsDir. auto with run. Qed.

Lemma keeps_IsDir dir : keeps_registry (IsDir dir).
Proof. unfold IsDir. auto with run. Qed.

Lemma only_MkdirAll dir : only passive (MkdirAll E dir).
Proof. unfold MkdirAll. auto with run. Qed.

Lemma keeps_MkdirAll dir : keeps_registry (MkdirAll E dir).
Proof. unfold MkdirAll. auto with run. Qed.

Lemma only_Create path : only passive (Create E path).
Proof. unfold Create. auto with run. Qed.

Lemma keeps_Create path : keeps_registry (Create E path).
Proof. unfold Create. auto with run. Qed.

Lemma only_ReadFile P path : only P (ReadFile path).
Proof. unfold ReadFile. auto with run. Qed.

Lemma keeps_ReadFile path : keeps_registry (ReadFile path).
Proof. unfold ReadFile. auto with run. Qed.

Lemma only_WriteFile path b : only passive (WriteFile E path b).
Proof. unfold WriteFile. auto with run. Qed.

Lemma keeps_WriteFile path b : keeps_registry (WriteFile E path b).
Proof. unfold WriteFile. auto with run. Qed.

Lemma only_ResetAutoIncrement v : only passive (ResetAutoIncrement E v).
Proof. pose proof only_ReadFile. pose proof only_WriteFile. unfold ResetAutoIncrement. auto with run. Qed.

Lemma keeps_ResetAutoIncrement v : keeps_registry (ResetAutoIncrement E v).
Proof. pose proof keeps_ReadFile. pose proof keeps_WriteFile. unfold ResetAutoIncrement. auto with run. Qed.

Lemma keeps_clean w : keeps_registry (clean w).
Proof. unfold clean. auto with run. Qed.

Lemma keeps_Sink_Write w data : keeps_registry (Sink_Write w data).
Proof. unfold Sink_Write. auto 10 with run. Qed.

End SystemFacts.

(** * [Export] (lines 96-223) *)

Section ExportFacts.

Variable E : Env.

Local Open Scope nat_scope.

Lemma passive_unmarked evs : Forall passive evs -> Forall unmarked evs.
Proof.
  intros H. eapply Forall_impl; [exact H|]. intros []; simpl; tauto.
Qed.

Lemma passive_starts evs : Forall passive evs -> starts evs = [].
Proof.
  induction 1 as [|ev evs Hev _ IH]; [reflexivity|].
  destruct ev; simpl in *; tauto.
Qed.




Lemma starts_app evs1 evs2 : starts (evs1 ++ evs2) = starts evs1 ++ starts evs2.
Proof.
  induction evs1 as [|ev evs1 IH]; [reflexivity|].
  destruct ev; simpl; rewrite ?IH; reflexivity.
Qed.

Lemma In_starts args evs : In (EvStart args) evs <-> In args (starts evs).
Proof.
  induction evs as [|ev evs IH]; [reflexivity|].
  destruct ev; simpl; rewrite <- ?IH; intuition congruence.
Qed.

(** ** Files made and closed *)

Lemma no_create_sealed evs : Forall no_create evs -> sealed evs.
Proof.
  induction 1 as [|ev evs Hev _ IH]; [exact I|].
  destruct ev; simpl in *; tauto.
Qed.

Lemma sealed_app evs1 evs2 : sealed evs1 -> sealed evs2 -> sealed (evs1 ++ evs2).
Proof.
  intros H1 H2. induction evs1 as [|ev evs1 IH]; [exact H2|].
  destruct ev; simpl in *; auto.
  destruct H1 as [Hc H1]. split; [apply in_or_app; left; exact Hc | auto].
Qed.

Lemma sealed_split evs : sealed evs ->
  forall pre path post, evs = pre ++ EvCreate path :: post ->
  In (EvClose (SFile path)) post.
Proof.
  intros H pre. revert evs H. induction pre as [|ev pre IH]; intros evs H path post ->.
  - simpl in H. tauto.
  - apply (IH (pre ++ EvCreate path :: post)); [|reflexivity].
    destruct ev; simpl in H; tauto.
Qed.

(** ** The type switch *)

Lemma only_resolve_writer index reset writer :
  only passive (resolve_writer E index reset writer).
Proof.
  pose proof only_IsDir. pose proof (only_MkdirAll E). pose proof (only_Create E).
  unfold resolve_writer. destruct writer; auto 20 with run.
Qed.

Lemma keeps_resolve_writer index reset writer :
  keeps_registry (resolve_writer E index reset writer).
Proof.
  pose proof keeps_IsDir. pose proof (keeps_MkdirAll E). pose proof (keeps_Create E).
  unfold resolve_writer. destruct writer; auto 20 with run.
Qed.

Lemma resolve_writer_tame index reset writer st w onFinish :
  outcome (resolve_writer E index reset writer st) = Ok (w, onFinish) -> tame onFinish.
Proof.
  destruct writer as [|id closer|v|];
    cbv [resolve_writer bind IsDir get ret try throw outcome fst].
  - discriminate.
  - intros Heq. simplify_eq. exact I.
  - repeat case_match; try discriminate.
    all: intros Heq; simplify_eq; split;
      solve [ apply only_ret | apply keeps_ret
            | apply only_ResetAutoIncrement | apply keeps_ResetAutoIncrement ].
  - discriminate.
Qed.

(** ** Running the subprocess *)

Lemma relay_paths w onFinish args st :
  relay_path E w onFinish args (relay E w onFinish args st).
Proof.
  unfold relay.
  destruct (pipe_fault E args) as [cause|] eqn:Hpipe.
  { apply (path_pipe _ _ _ _ _ cause Hpipe); unfold clean, closes;
      destruct (closable w); reflexivity. }
  destruct (start_fault E args) as [cause|] eqn:Hstart.
  { apply (path_start _ _ _ _ _ cause Hstart); unfold clean, closes;
      destruct (closable w); reflexivity. }
  destruct (copy_result E args) as [data [cause|]] eqn:Hcopy.
  { apply (path_copy _ _ _ _ _ data cause Hcopy); unfold clean, closes;
      destruct (closable w), w; reflexivity. }
  destruct (wait_fault E args) as [cause|] eqn:Hwait.
  { apply (path_wait _ _ _ _ _ data cause Hwait); unfold clean, closes;
      destruct (closable w), w; reflexivity. }
  destruct onFinish as [f|].
  - set (st' := after ((emit (EvStart args) ;;; Sink_Write w data ;;; emit (EvWait args) ;;;
                        clean w ;;; emit EvCloseStdout) st)).
    apply (path_done _ _ _ _ _ data (events (f st'))).
    + exists st'. split; [|reflexivity].
      subst st'. unfold clean. destruct (closable w), w;
        cbv [bind emit Sink_Write modify ret outcome after fst snd];
        destruct (f _) as [[r w2] evs2]; reflexivity.
    + subst st'. unfold clean, closes. destruct (closable w), w;
        cbv [bind emit Sink_Write modify ret events outcome after fst snd app];
        destruct (f _) as [[r w2] evs2]; reflexivity.
  - apply (path_done _ _ _ _ _ data []); [split; [|reflexivity]|];
      unfold clean, closes; destruct (closable w), w; reflexivity.
Qed.

Lemma tame_fin f (fin : list event) st' :
  tame (Some f) -> fin = events (f st') -> Forall passive fin.
Proof. intros [Hf _] ->. apply Hf. Qed.

Lemma closes_passive w : Forall passive (closes w).
Proof. unfold closes. destruct (closable w); repeat constructor. Qed.

Lemma relay_path_fin w onFinish args x :
  tame onFinish -> relay_path E w onFinish args x ->
  exists body fin, events x = body ++ fin /\ Forall passive fin
    /\ (body = closes w
        \/ body = EvStart args :: EvCloseStdout :: closes w
        \/ (exists data, body = EvStart args :: EvCopy w data :: EvCloseStdout :: closes w)
        \/ (exists data, body = EvStart args :: EvCopy w data :: EvWait args
                                :: EvCloseStdout :: closes w)
        \/ (exists data, body = EvStart args :: EvCopy w data :: EvWait args
                                :: closes w ++ [EvCloseStdout]))
    /\ (outcome x = Ok tt ->
        exists data, body = EvStart args :: EvCopy w data :: EvWait args
                            :: closes w ++ [EvCloseStdout]).
Proof.
  intros Htame [cause ? Ho He|cause ? Ho He|data cause ? Ho He|data cause ? Ho He|data fin Hfin He].
  1-4: exists (events x), []; rewrite app_nil_r; split; [reflexivity|];
       split; [constructor|]; split; [rewrite He; eauto 10 | rewrite Ho; discriminate].
  exists (EvStart args :: EvCopy w data :: EvWait args :: closes w ++ [EvCloseStdout]), fin.
  split; [rewrite He; simpl; rewrite <- app_assoc; reflexivity|].
  split; [|split; [eauto 10 | eauto]].
  destruct onFinish as [f|].
  - destruct Hfin as (st' & _ & Hfin). eapply tame_fin; eassumption.
  - destruct Hfin as [_ ->]. constructor.
Qed.

Lemma In_closes w : closable w = true -> In (EvClose w) (closes w).
Proof. intros H. unfold closes. rewrite H. left. reflexivity. Qed.


Lemma relay_starts w onFinish args st :
  tame onFinish ->
  let x := relay E w onFinish args st in
  (starts (events x) = [] \/ starts (events x) = [args])
  /\ (outcome x = Ok tt -> starts (events x) = [args] /\ In (EvWait args) (events x)).
Proof.
  intros Htame x.
  destruct (relay_path_fin _ _ _ _ Htame (relay_paths w onFinish args st))
    as (body & fin & Hev & Hfin & Hbody & Hok).
  fold x in Hev, Hok. rewrite Hev, starts_app, (passive_starts fin Hfin), app_nil_r.
  pose proof (passive_starts _ (closes_passive w)) as Hc.
  split.
  - destruct Hbody as [->|[->|[[data ->]|[[data ->]|[data ->]]]]];
      simpl; rewrite ?starts_app, ?Hc; auto.
  - intros Hx. destruct (Hok Hx) as [data ->].
    simpl. rewrite starts_app, Hc. split; [reflexivity | auto].
Qed.

Lemma closes_no_create w : Forall no_create (closes w).
Proof. unfold closes. destruct (closable w); repeat constructor. Qed.

(** On each of its five ways out, the relay closes a writer that can be
    closed. *)
Lemma relay_closes w onFinish args st :
  closable w = true -> In (EvClose w) (events (relay E w onFinish args st)).
Proof.
  intros Hw. pose proof (In_closes w Hw) as Hin.
  destruct (relay_paths w onFinish args st)
    as [c _ _ He|c _ _ He|d c _ _ He|d c _ _ He|d fin _ He];
    rewrite He; simpl; rewrite ?in_app_iff; auto 10.
Qed.

(** Once the pipe is made, [cmd.Start] is called. *)
Lemma relay_started w onFinish args st :
  pipe_fault E args = None -> In (EvStart args) (events (relay E w onFinish args st)).
Proof.
  intros Hp.
  destruct (relay_paths w onFinish args st)
    as [c Hc _ He|c _ _ He|d c _ _ He|d c _ _ He|d fin _ He];
    [congruence|..]; rewrite He; left; reflexivity.
Qed.

Lemma relay_no_create w onFinish args st :
  match onFinish with Some f => only no_create f | None => True end ->
  Forall no_create (events (relay E w onFinish args st)).
Proof.
  intros Hf. pose proof (closes_no_create w) as Hc.
  destruct (relay_paths w onFinish args st)
    as [c _ _ He|c _ _ He|d c _ _ He|d c _ _ He|d fin Hfin He];
    rewrite He; repeat (apply Forall_cons; split; [exact I|]); try exact Hc.
  apply Forall_app. split; [exact Hc|]. apply Forall_cons. split; [exact I|].
  destruct onFinish as [f|].
  - destruct Hfin as (st' & _ & ->). apply Hf.
  - destruct Hfin as [_ ->]. constructor.
Qed.

Lemma only_ResetAutoIncrement_no_create v : only no_create (ResetAutoIncrement E v).
Proof. unfold ResetAutoIncrement, ReadFile, WriteFile. auto 10 with run. Qed.

(** What the type switch leaves in the trace: for a path, the making of
    its file as the last event when it went well; no file is made
    otherwise. *)
Lemma resolve_writer_made index reset writer st :
  let r := resolve_writer E index reset writer st in
  match outcome r with
  | Ok (w, onFinish) =>
      match onFinish with Some f => only no_create f | None => True end
      /\ match writer with
         | WPath v =>
             w = SFile v
             /\ exists pre, events r = pre ++ [EvCreate v] /\ Forall no_create pre
         | WStream id closer => w = SStream id closer /\ events r = []
         | _ => False
         end
  | Err _ => Forall no_create (events r)
  end.
Proof.
  assert (Hfin : forall v, only no_create
            (if 0 <? index then ret tt
             else if reset then ResetAutoIncrement E v else ret tt)).
  { intros v. destruct (0 <? index); [apply only_ret|].
    destruct reset; [apply only_ResetAutoIncrement_no_create | apply only_ret]. }
  destruct writer as [|id closer|v|];
    cbv [resolve_writer bind IsDir get ret try throw outcome events fst snd].
  - constructor.
  - split; [exact I | split; reflexivity].
  - unfold MkdirAll, Create.
    destruct (bool_decide _); [|destruct (mkdir_fault E _)];
      destruct (create_fault E v);
      cbv [bind modify emit ret throw try outcome events fst snd]; cbn [app];
      repeat constructor; try apply Hfin.
    + exists []. split; [reflexivity | constructor].
    + exists [EvMkdirAll (filepath_Dir E v)]. split; [reflexivity | repeat constructor].
  - constructor.
Qed.

Lemma keeps_relay w onFinish args :
  tame onFinish -> keeps_registry (relay E w onFinish args).
Proof.
  intros Htame. pose proof keeps_clean. pose proof keeps_Sink_Write.
  unfold relay.
  destruct (pipe_fault E args); [auto with run|].
  destruct (start_fault E args); [auto 10 with run|].
  destruct (copy_result E args) as [data [cause|]]; [auto 10 with run|].
  destruct (wait_fault E args); [auto 10 with run|].
  destruct onFinish as [f|]; [destruct Htame as [_ Hf]|]; auto 10 with run.
Qed.

(** ** One pass *)

Lemma dump_pass_unfold index reset writer args st :
  dump_pass E index reset writer args st
  = bind (resolve_writer E index reset writer)
      (fun resolved => emit (EvWriter (fst resolved)) ;;;
                       relay E (fst resolved) (snd resolved) args) st.
Proof.
  unfold dump_pass, bind at 1 3.
  destruct (resolve_writer E index reset writer st) as [[[[w f]|e] w1] evs1]; reflexivity.
Qed.

Lemma marked_relay w onFinish args st :
  let x := (emit (EvWriter w) ;;; relay E w onFinish args) st in
  outcome x = outcome (relay E w onFinish args st)
  /\ after x = after (relay E w onFinish args st)
  /\ events x = EvWriter w :: events (relay E w onFinish args st).
Proof.
  unfold bind, emit. destruct (relay E w onFinish args st) as [[r w2] evs2].
  repeat split.
Qed.


Lemma dump_pass_starts index reset writer args st :
  let x := dump_pass E index reset writer args st in
  (starts (events x) = [] \/ starts (events x) = [args])
  /\ (outcome x = Ok tt -> starts (events x) = [args] /\ In (EvWait args) (events x)).
Proof.
  cbv zeta. rewrite dump_pass_unfold, events_bind, outcome_bind.
  pose proof (passive_starts _ (only_resolve_writer index reset writer st)) as Hpre.
  destruct (outcome (resolve_writer E index reset writer st)) as [[w f]|e] eqn:Hr.
  - cbn [fst snd].
    destruct (marked_relay w f args (after (resolve_writer E index reset writer st)))
      as (-> & _ & ->).
    apply resolve_writer_tame in Hr.
    destruct (relay_starts w f args (after (resolve_writer E index reset writer st)) Hr)
      as [Hs Hok].
    rewrite starts_app, Hpre. simpl. split; [exact Hs|].
    intros Hx. destruct (Hok Hx) as [H1 H2]. split; [exact H1|].
    apply in_or_app. right. right. exact H2.
  - rewrite Hpre. split; [auto | discriminate].
Qed.

Lemma dump_pass_sealed index reset writer args st :
  sealed (events (dump_pass E index reset writer args st)).
Proof.
  rewrite dump_pass_unfold, events_bind.
  pose proof (resolve_writer_made index reset writer st) as Hr. cbv zeta in Hr.
  destruct (outcome (resolve_writer E index reset writer st)) as [[w f]|e] eqn:Ho;
    [|apply no_create_sealed, Hr].
  destruct Hr as [Hf Hshape]. cbn [fst snd].
  destruct (marked_relay w f args (after (resolve_writer E index reset writer st)))
    as (_ & _ & ->).
  pose proof (relay_no_create w f args (after (resolve_writer E index reset writer st)) Hf)
    as Hn.
  destruct writer as [|id closer|v|]; try contradiction.
  - destruct Hshape as [-> ->]. cbn [app].
    apply no_create_sealed, Forall_cons. split; [exact I | exact Hn].
  - destruct Hshape as (-> & pre & -> & Hpre). rewrite <- app_assoc.
    apply sealed_app; [apply no_create_sealed, Hpre|].
    cbn [app sealed]. split.
    + right. apply relay_closes. reflexivity.
    + apply no_create_sealed, Hn.
Qed.

Lemma dump_pass_closes_stream index reset id args st :
  In (EvClose (SStream id true))
     (events (dump_pass E index reset (WStream id true) args st)).
Proof.
  rewrite dump_pass_unfold, events_bind. cbn [resolve_writer ret outcome events fst snd app].
  destruct (marked_relay (SStream id true) None args st) as (_ & _ & Hev).
  cbn [after ret fst snd]. rewrite Hev. right. apply relay_closes. reflexivity.
Qed.

Lemma dump_pass_started index reset writer args st :
  (forall e, outcome (resolve_writer E index reset writer st) <> Err e) ->
  pipe_fault E args = None ->
  In (EvStart args) (events (dump_pass E index reset writer args st)).
Proof.
  intros Hres Hpipe. rewrite dump_pass_unfold, events_bind.
  destruct (outcome (resolve_writer E index reset writer st)) as [[w f]|e] eqn:Ho;
    [|destruct (Hres e eq_refl)].
  cbn [fst snd]. apply in_or_app. right.
  destruct (marked_relay w f args (after (resolve_writer E index reset writer st)))
    as (_ & _ & ->).
  right. apply relay_started, Hpipe.
Qed.

Lemma keeps_dump_pass index reset writer args :
  keeps_registry (dump_pass E index reset writer args).
Proof.
  intros st. rewrite dump_pass_unfold, after_bind.
  pose proof (keeps_resolve_writer index reset writer st) as Hpre.
  destruct (outcome (resolve_writer E index reset writer st)) as [[w f]|e] eqn:Hr;
    [|exact Hpre].
  cbn [fst snd].
  destruct (marked_relay w f args (after (resolve_writer E index reset writer st)))
    as (_ & -> & _).
  apply resolve_writer_tame in Hr.
  destruct (keeps_relay w f args Hr (after (resolve_writer E index reset writer st)))
    as [-> ->].
  exact Hpre.
Qed.

(** ** The loop *)

Lemma dump_passes_cons reset t index writer writers args :
  writer <> WNil ->
  dump_passes E reset t index (writer :: writers) args
  = (let args' := if 0 <? index then <[t := "-t"]> args else args in
     dump_pass E index reset writer args' ;;;
     dump_passes E reset t (S index) writers args').
Proof. destruct writer; [congruence | reflexivity ..]. Qed.

Lemma dump_passes_skip reset t index writers args :
  dump_passes E reset t index (WNil :: writers) args
  = dump_passes E reset t (S index) writers args.
Proof. reflexivity. Qed.

Lemma dump_passes_sealed reset t writers : forall index args st,
  sealed (events (dump_passes E reset t index writers args st)).
Proof.
  induction writers as [|writer writers IH]; intros index args st; [exact I|].
  destruct (decide (writer = WNil)) as [->|Hw]; [apply IH|].
  rewrite (dump_passes_cons _ _ _ _ _ _ Hw). cbv zeta. rewrite events_bind.
  pose proof (dump_pass_sealed index reset writer
                (if 0 <? index then <[t := "-t"]> args else args) st) as Hp.
  destruct (outcome _); [apply sealed_app; [exact Hp | apply IH] | exact Hp].
Qed.


Lemma keeps_dump_passes reset t writers : forall index args,
  keeps_registry (dump_passes E reset t index writers args).
Proof.
  induction writers as [|writer writers IH]; intros index args; [apply keeps_ret|].
  destruct (decide (writer = WNil)) as [->|Hw]; [apply IH|].
  rewrite (dump_passes_cons _ _ _ _ _ _ Hw). cbv zeta.
  apply keeps_bind; [apply keeps_dump_pass | intros _; apply IH].
Qed.

Lemma dump_passes_starts reset t writers : forall index args st a,
  In a (starts (events (dump_passes E reset t index writers args st))) ->
  a = args \/ a = <[t := "-t"]> args.
Proof.
  induction writers as [|writer writers IH]; intros index args st a Ha; [destruct Ha|].
  destruct (decide (writer = WNil)) as [->|Hw]; [exact (IH _ _ _ _ Ha)|].
  rewrite (dump_passes_cons _ _ _ _ _ _ Hw) in Ha. cbv zeta in Ha.
  rewrite events_bind in Ha.
  set (args' := if 0 <? index then <[t := "-t"]> args else args) in *.
  assert (Hargs' : args' = args \/ args' = <[t := "-t"]> args)
    by (subst args'; destruct (0 <? index); auto).
  assert (Hpass : In a (starts (events (dump_pass E index reset writer args' st))) ->
                  a = args \/ a = <[t := "-t"]> args).
  { destruct (dump_pass_starts index reset writer args' st) as [[->| ->] _];
      [intros [] | intros [<-|[]]; exact Hargs']. }
  destruct (outcome (dump_pass E index reset writer args' st)); [|auto].
  rewrite starts_app, in_app_iff in Ha. destruct Ha as [Ha|Ha]; [auto|].
  apply IH in Ha. destruct Ha as [->| ->]; [exact Hargs'|].
  right. destruct Hargs' as [->| ->]; [reflexivity | apply list_insert_insert_eq].
Qed.

(** ** The whole of [Export] *)

Lemma Export_run cfg tables sw dw rs st :
  tables <> [] -> InSlice (Charset cfg) (Charsets E) = true ->
  Export E cfg tables sw dw rs st
  = (emit (EvLog tables) ;;;
     dump_passes E (reset_flag rs) 5 0 [sw; dw]
       (Export_args cfg (fst (Export_host_port (Host cfg)))
          (snd (Export_host_port (Host cfg))) ++ tables)) st.
Proof.
  intros Ht Hc. unfold Export. destruct tables as [|t0 tables]; [congruence|].
  cbn [length Nat.eqb]. unfold bind at 1 2. cbn [emit].
  destruct (Export_host_port (Host cfg)) as [host port].
  rewrite Hc. reflexivity.
Qed.

End ExportFacts.

(** * Properties of [Export] *)

Section ExportProperties.

Variable E : Env.

Local Open Scope nat_scope.

Lemma keeps_Export cfg tables sw dw rs :
  keeps_registry (Export E cfg tables sw dw rs).
Proof.
  pose proof (keeps_dump_passes E). unfold Export. auto 10 with run.
Qed.

Lemma Export_sealed cfg tables sw dw rs st :
  sealed (events (Export E cfg tables sw dw rs st)).
Proof.
  destruct tables as [|t0 tables]; [exact I|].
  destruct (InSlice (Charset cfg) (Charsets E)) eqn:Hc.
  - rewrite Export_run by (congruence || assumption).
    rewrite events_bind. cbn [outcome emit events fst snd].
    apply (sealed_app [_]); [exact I | apply dump_passes_sealed].
  - unfold Export. cbn [length Nat.eqb]. unfold bind. cbn [emit].
    destruct (Export_host_port (Host cfg)) as [host port].
    rewrite Hc. exact I.
Qed.


Lemma Export_invalid_run cfg tables sw dw rs st :
  tables = [] \/ InSlice (Charset cfg) (Charsets E) = false ->
  Export E cfg tables sw dw rs st
  = match tables with
    | [] => (Err ErrNoTable, st, [])
    | _ :: _ => (Err ErrCharset, st, [EvLog tables])
    end.
Proof.
  intros H. destruct tables as [|t0 tables]; [reflexivity|].
  destruct H as [H|H]; [discriminate|].
  unfold Export. cbn [length Nat.eqb]. unfold bind. cbn [emit].
  destruct (Export_host_port (Host cfg)) as [host port].
  rewrite H. reflexivity.
Qed.

(** With a second writer, [Export] is the export to the first writer
    alone, followed, when that went well, by the pass of the second. *)
Lemma Export_second_pass cfg tables sw dw rs st :
  dw <> WNil ->
  let first := Export E cfg tables sw WNil rs st in
  outcome first = Ok tt ->
  let args_t := <[5 := "-t"]> (Export_args cfg (fst (Export_host_port (Host cfg)))
                                 (snd (Export_host_port (Host cfg))) ++ tables) in
  let second := dump_pass E 1 (reset_flag rs) dw args_t (after first) in
  Export E cfg tables sw dw rs st
  = (outcome second, after second, events first ++ events second).
Proof.
  intros Hdw first Hfirst args_t second.
  assert (Hvalid : tables <> [] /\ InSlice (Charset cfg) (Charsets E) = true).
  { subst first. destruct tables as [|t0 tables].
    - rewrite Export_invalid_run in Hfirst by (left; reflexivity). discriminate.
    - destruct (InSlice (Charset cfg) (Charsets E)) eqn:Hc; [split; [discriminate|reflexivity]|].
      rewrite Export_invalid_run in Hfirst by (right; exact Hc). discriminate. }
  destruct Hvalid as [Ht Hc].
  subst second first. revert Hfirst. rewrite !Export_run by assumption.
  destruct (decide (sw = WNil)) as [->|Hsw].
  - intros _. rewrite !dump_passes_skip. rewrite (dump_passes_cons E _ _ _ _ _ _ Hdw).
    cbn [Nat.ltb Nat.leb dump_passes]. fold args_t.
    change ((emit (EvLog tables) ;;; ret tt) st) with (Ok tt, st, [EvLog tables]).
    cbn [after outcome events fst snd app].
    unfold bind, emit, ret.
    destruct (dump_pass E 1 (reset_flag rs) dw args_t st) as [[[[]|e] w1] evs1];
      cbn [outcome after events fst snd app]; rewrite ?app_nil_r; reflexivity.
  - rewrite !(dump_passes_cons E _ _ _ _ _ _ Hsw). cbn [Nat.ltb Nat.leb].
    rewrite dump_passes_skip.
    rewrite (dump_passes_cons E _ _ _ _ _ _ Hdw). cbn [Nat.ltb Nat.leb dump_passes].
    fold args_t.
    set (args_d := Export_args cfg (fst (Export_host_port (Host cfg)))
                     (snd (Export_host_port (Host cfg))) ++ tables).
    unfold bind, emit, ret.
    destruct (dump_pass E 0 (reset_flag rs) sw args_d st) as [[[[]|e] w1] evs1];
      cbn [outcome after events fst snd]; [intros _|discriminate].
    destruct (dump_pass E 1 (reset_flag rs) dw args_t w1) as [[[[]|e] w2] evs2];
      cbn [outcome after events fst snd app]; rewrite ?app_nil_r, <- ?app_assoc; reflexivity.
Qed.

(** C3: without a table, or with a character set outside [Charsets],
    [Export] returns its validation error and leaves the world as it found
    it: no subprocess is started, no directory or file is made and no
    writer is taken, written to or closed.  The one thing that happens
    before the character set is looked at is the log line of line 100. *)
Theorem Export_rejects_invalid cfg tables sw dw rs st :
  tables = [] \/ InSlice (Charset cfg) (Charsets E) = false ->
  let x := Export E cfg tables sw dw rs st in
  outcome x = Err (match tables with [] => ErrNoTable | _ :: _ => ErrCharset end)
  /\ after x = st
  /\ events x = match tables with [] => [] | _ :: _ => [EvLog tables] end
  /\ starts (events x) = []
  /\ Forall unmarked (events x).
Proof.
  intros H x. subst x. rewrite (Export_invalid_run _ _ _ _ _ _ H).
  destruct tables; cbn; repeat split; repeat constructor.
Qed.



(** C9: whatever happens to a pass (the pipe cannot be made, the
    subprocess does not start, copying fails, the subprocess exits with an
    error, or all goes well), the writer of the pass is closed before
    [Export] returns if it can be closed: every file [Export] makes with
    [os.Create] is closed later on, and so is a stream with a [Close]
    method, handed in as the writer of a pass that is reached. *)
Theorem Export_closes_writers cfg tables sw dw rs st :
  let x := Export E cfg tables sw dw rs st in
  let first := Export E cfg tables sw WNil rs st in
  (forall pre path post, events x = pre ++ EvCreate path :: post ->
     In (EvClose (SFile path)) post)
  /\ (forall id, sw = WStream id true ->
        tables <> [] -> InSlice (Charset cfg) (Charsets E) = true ->
        In (EvClose (SStream id true)) (events x))
  /\ (forall id, dw = WStream id true -> outcome first = Ok tt ->
        exists post, events x = events first ++ post
                     /\ In (EvClose (SStream id true)) post).
Proof.
  intros x first. split; [|split].
  - intros pre path post Hev.
    exact (sealed_split _ (Export_sealed cfg tables sw dw rs st) pre path post Hev).
  - intros id -> Ht Hc. subst x. rewrite Export_run by assumption.
    rewrite events_bind. cbn [outcome emit events fst snd after app]. right.
    rewrite (dump_passes_cons E _ _ _ _ _ _ (ltac:(discriminate) : WStream id true <> WNil)).
    cbn [Nat.ltb Nat.leb]. rewrite events_bind.
    pose proof (dump_pass_closes_stream E 0 (reset_flag rs) id
                  (Export_args cfg (fst (Export_host_port (Host cfg)))
                     (snd (Export_host_port (Host cfg))) ++ tables) st) as Hin.
    set (pass := dump_pass E 0 (reset_flag rs) (WStream id true) _ st) in *.
    destruct (outcome pass); [apply in_or_app; left; exact Hin | exact Hin].
  - intros id -> Hfirst. subst x first.
    rewrite (Export_second_pass cfg tables sw (WStream id true) rs st) by
      (discriminate || exact Hfirst).
    eexists. split; [reflexivity|]. cbn [events snd]. apply dump_pass_closes_stream.
Qed.

(** C2: with a table list that is not empty and a recognised character
    set, the argument list [Export] builds for mysqldump is the fixed
    template (character set, single transaction, GTID purge off, no
    autocommit, [--opt], the structure/data flag, host, port, user,
    password, database) followed by the tables as supplied, each once and
    in order.  Every subprocess that is started gets that list; an export
    that went well has started one subprocess for each writer that is not
    [nil], with [-d] for the first and [-t] for the second; and the pass
    of a writer that is reached, whose type switch does not fail and whose
    pipe is made, calls [cmd.Start] with that list, whatever fails later. *)
Theorem Export_start_args cfg tables sw dw rs st :
  tables <> [] -> InSlice (Charset cfg) (Charsets E) = true ->
  let args_of flag :=
    [ "--default-character-set=" +:+ Charset cfg;
      "--single-transaction";
      "--set-gtid-purged=OFF";
      "--no-autocommit";
      "--opt";
      flag;
      "-h" +:+ fst (Export_host_port (Host cfg));
      "-P" +:+ snd (Export_host_port (Host cfg));
      "-u" +:+ Username cfg;
      "-p" +:+ Password cfg;
      Db cfg ] ++ tables in
  let x := Export E cfg tables sw dw rs st in
  let first := Export E cfg tables sw WNil rs st in
  (forall args, In (EvStart args) (events x) ->
     exists flag, (flag = "-d" \/ flag = "-t") /\ args = args_of flag)
  /\ (outcome x = Ok tt ->
      starts (events x)
      = (if decide (sw = WNil) then [] else [args_of "-d"])
        ++ (if decide (dw = WNil) then [] else [args_of "-t"]))
  /\ (sw <> WNil ->
      (forall e, outcome (resolve_writer E 0 (reset_flag rs) sw st) <> Err e) ->
      pipe_fault E (args_of "-d") = None ->
      In (EvStart (args_of "-d")) (events x))
  /\ (dw <> WNil -> outcome first = Ok tt ->
      (forall e, outcome (resolve_writer E 1 (reset_flag rs) dw (after first)) <> Err e) ->
      pipe_fault E (args_of "-t") = None ->
      In (EvStart (args_of "-t")) (events x)).
Proof.
  intros Ht Hc args_of x first.
  set (args_d := Export_args cfg (fst (Export_host_port (Host cfg)))
                   (snd (Export_host_port (Host cfg))) ++ tables).
  assert (Hd : args_of "-d" = args_d) by reflexivity.
  assert (Htt : args_of "-t" = <[5 := "-t"]> args_d) by reflexivity.
  assert (Hrun : x = (emit (EvLog tables) ;;;
                      dump_passes E (reset_flag rs) 5 0 [sw; dw] args_d) st)
    by (subst x; apply Export_run; assumption).
  split; [|split; [|split]].
  - intros args Hin. rewrite Hrun in Hin.
    rewrite events_bind in Hin. cbn [outcome emit events fst snd] in Hin.
    destruct Hin as [Hin|Hin]; [discriminate|].
    apply In_starts, dump_passes_starts in Hin.
    destruct Hin as [->| ->]; [exists "-d" | exists "-t"]; split; auto.
  - rewrite Hd, Htt. clearbody args_d. clear Hd Htt args_of. rewrite Hrun. clear Hrun.
    rewrite outcome_bind, events_bind. cbn [outcome emit events fst snd after starts app].
    destruct (decide (sw = WNil)) as [->|Hsw]; destruct (decide (dw = WNil)) as [->|Hdw].
    + intros _. reflexivity.
    + rewrite dump_passes_skip, (dump_passes_cons E _ _ _ _ _ _ Hdw).
      cbn [Nat.ltb Nat.leb dump_passes].
      rewrite outcome_bind, events_bind.
      destruct (dump_pass_starts E 1 (reset_flag rs) dw (<[5 := "-t"]> args_d) st)
        as [_ Hok].
      destruct (outcome (dump_pass E 1 (reset_flag rs) dw (<[5 := "-t"]> args_d) st))
        as [[]|e]; [|discriminate].
      intros _. destruct (Hok eq_refl) as [Hs _].
      cbn [ret events snd]. rewrite app_nil_r. exact Hs.
    + rewrite (dump_passes_cons E _ _ _ _ _ _ Hsw). cbn [Nat.ltb Nat.leb].
      rewrite dump_passes_skip. cbn [dump_passes].
      rewrite outcome_bind, events_bind.
      destruct (dump_pass_starts E 0 (reset_flag rs) sw args_d st) as [_ Hok].
      destruct (outcome (dump_pass E 0 (reset_flag rs) sw args_d st))
        as [[]|e]; [|discriminate].
      intros _. destruct (Hok eq_refl) as [Hs _].
      cbn [ret events snd]. rewrite app_nil_r. exact Hs.
    + rewrite (dump_passes_cons E _ _ _ _ _ _ Hsw). cbn [Nat.ltb Nat.leb].
      rewrite (dump_passes_cons E _ _ _ _ _ _ Hdw). cbn [Nat.ltb Nat.leb dump_passes].
      rewrite outcome_bind, events_bind.
      destruct (dump_pass_starts E 0 (reset_flag rs) sw args_d st) as [_ Hok0].
      destruct (outcome (dump_pass E 0 (reset_flag rs) sw args_d st))
        as [[]|e0]; [|discriminate].
      destruct (Hok0 eq_refl) as [Hs0 _].
      rewrite outcome_bind, events_bind.
      set (st1 := after (dump_pass E 0 (reset_flag rs) sw args_d st)).
      destruct (dump_pass_starts E 1 (reset_flag rs) dw (<[5 := "-t"]> args_d) st1)
        as [_ Hok1].
      destruct (outcome (dump_pass E 1 (reset_flag rs) dw (<[5 := "-t"]> args_d) st1))
        as [[]|e1]; [|discriminate].
      intros _. destruct (Hok1 eq_refl) as [Hs1 _].
      cbn [ret events snd]. rewrite app_nil_r, starts_app, Hs0, Hs1. reflexivity.
  - intros Hsw Hres Hpipe. rewrite Hd in *. rewrite Hrun.
    rewrite events_bind. cbn [outcome emit events fst snd after app]. right.
    rewrite (dump_passes_cons E _ _ _ _ _ _ Hsw). cbn [Nat.ltb Nat.leb].
    rewrite events_bind.
    pose proof (dump_pass_started E 0 (reset_flag rs) sw args_d st Hres Hpipe) as Hin.
    set (pass := dump_pass E 0 (reset_flag rs) sw args_d st) in *.
    destruct (outcome pass); [apply in_or_app; left; exact Hin | exact Hin].
  - intros Hdw Hfirst Hres Hpipe. rewrite Htt in *. subst x first.
    rewrite (Export_second_pass cfg tables sw dw rs st Hdw Hfirst).
    cbn [events snd]. apply in_or_app. right.
    apply dump_pass_started; assumption.
Qed.


End ExportProperties.

(** * The request handler (lines 245-413) *)

Section HandlerProperties.

Variable E : Env.

Local Open Scope nat_scope.

Lemma measure_all_pure now l st :
  exists l', measure_all now l st = (Ok l', st, []).
Proof.
  induction l as [|fi l [l' IH]]; [exists []; reflexivity|].
  cbn [measure_all]. unfold bind at 1. unfold measure, FileSize, bind, get.
  destruct (files st !! Path fi); cbn [ret]; rewrite IH; eexists; reflexivity.
Qed.

(** C4: a submission whose fingerprint is already in the Job Registry is
    refused with the already-running error; nothing is started, made or
    written, and the world, registry included, stays as it was. *)
Theorem duplicate_rejected m tables st fileInfos :
  IsPost m = true -> dbName m <> "" -> request_tables m = Ok tables ->
  registered st (cacheKey tables (Form_output m) (FormValues_type m)) = Some fileInfos ->
  mySQL_Export E m st = (Err ErrRunning, st, []).
Proof.
  intros Hpost Hdb Htables Hreg.
  unfold mySQL_Export, mySQL_Export_at. rewrite Hpost, Htables.
  destruct (dbName m) as [|c name]; [congruence|]. cbn [String.length Nat.eqb].
  unfold registered in Hreg.
  destruct (backgrounds st !! OpExport) as [exports|] eqn:Hbg; [|discriminate].
  cbn [mbind option_bind] in Hreg.
  unfold bind at 1. unfold load_exports, bind at 1. cbn [get]. rewrite Hbg. cbn [ret].
  unfold bind at 1. unfold map_lookup, bind at 1. cbn [get ret].
  rewrite Hreg. reflexivity.
Qed.

(** C6: when the archiver fails, [worker] returns that error; after the
    dump passes it does nothing but log the error: the manifest is not
    written, no file is removed or changed, and the Job Registry keeps
    every entry it had, the one of this job included. *)
Theorem worker_keeps_all_on_zip_failure m cfg tables sw dw sqlFiles fileInfos exports
    key saveDir nowTime st cause :
  outcome (Export E cfg tables sw dw [true] st) = Ok tt ->
  sqlFiles <> [] ->
  zip_fault E (zip_path E m saveDir nowTime) sqlFiles = Some cause ->
  let x0 := Export E cfg tables sw dw [true] st in
  let x := worker E m cfg tables sw dw sqlFiles fileInfos exports key saveDir nowTime st in
  outcome x = Err (ErrOS cause)
  /\ events x = events x0 ++ [EvLogError (ErrOS cause)]
  /\ files (after x) = files (after x0)
  /\ backgrounds (after x) = backgrounds st
  /\ jobmaps (after x) = jobmaps st
  /\ registered (after x) key = registered st key.
Proof.
  intros Hok Hfiles Hzip x0 x.
  destruct (keeps_Export E cfg tables sw dw [true] st) as [Hbg Hjm]. fold x0 in Hbg, Hjm.
  assert (Hx : outcome x = Err (ErrOS cause)
               /\ events x = events x0 ++ [EvLogError (ErrOS cause)]
               /\ files (after x) = files (after x0)
               /\ backgrounds (after x) = backgrounds (after x0)
               /\ jobmaps (after x) = jobmaps (after x0)).
  { assert (Hrun : exists l',
      x = (Err (ErrOS cause),
           set_infos (<[fileInfos := l']> (infos (after x0)))
             (set_clock (S (clock (after x0))) (after x0)),
           events x0 ++ [EvLogError (ErrOS cause)])).
    { subst x. unfold worker.
      destruct sqlFiles as [|f0 sqlFiles']; [congruence|]. cbn [length Nat.ltb Nat.leb].
      subst x0. cbv [bind try time_Now get put ret read_infos write_infos modify].
      destruct (Export E cfg tables sw dw [true] st) as [[r0 st1] evs0].
      cbn [outcome after events fst snd] in *. subst r0.
      match goal with |- context [measure_all ?now ?l ?s] =>
        destruct (measure_all_pure now l s) as [l' ->] end.
      exists l'. cbv [Zip_Make]. rewrite Hzip.
      cbv [emit throw]. cbn [app set_clock infos]. reflexivity. }
    destruct Hrun as [l' ->]. repeat split. }
  destruct Hx as (H1 & H2 & H3 & H4 & H5).
  repeat (split; [assumption || congruence|]).
  unfold registered. rewrite H4, H5, Hbg, Hjm. reflexivity.
Qed.

Lemma keeps_time_Now : keeps_registry (time_Now E).
Proof.
  intros st. unfold time_Now, bind, get, put, ret, after. split; reflexivity.
Qed.

Lemma keeps_TempDir op : keeps_registry (TempDir E op).
Proof.
  pose proof keeps_IsDir. pose proof (keeps_MkdirAll E).
  unfold TempDir. auto 10 with run.
Qed.

Lemma keeps_foreground_worker m cfg tables sw dw fileInfos exports key saveDir nowTime :
  keeps_registry (worker E m cfg tables sw dw [] fileInfos exports key saveDir nowTime).
Proof.
  pose proof (keeps_Export E). unfold worker. cbn [length Nat.ltb Nat.leb].
  auto 10 with run.
Qed.

(** In a foreground mode, with an export map already stored in
    [backgrounds], the fingerprint of the request is in the Job Registry
    when the handler has returned, whether the export went well or not. *)
Lemma foreground_entry_stays m tables st exports jm :
  IsPost m = true -> dbName m <> "" -> request_tables m = Ok tables ->
  Form_output m = "open" \/ Form_output m = "down" ->
  backgrounds st !! OpExport = Some exports ->
  jobmaps st !! exports = Some jm ->
  jm !! cacheKey tables (Form_output m) (FormValues_type m) = None ->
  registered (after (mySQL_Export E m st))
    (cacheKey tables (Form_output m) (FormValues_type m)) = Some (next st).
Proof.
  intros Hpost Hdb Htables Hout Hbg Hjm Hkey.
  unfold mySQL_Export, mySQL_Export_at. rewrite Hpost, Htables.
  destruct (dbName m) as [|c name] eqn:Hname; [congruence|]. cbn [String.length Nat.eqb].
  rewrite <- Hname. clear Hname c name Hdb.
  set (key := cacheKey tables (Form_output m) (FormValues_type m)) in *.
  rewrite after_bind.
  assert (Hload : load_exports st = (Ok exports, st, [])).
  { unfold load_exports, bind, get. rewrite Hbg. reflexivity. }
  rewrite Hload. cbn [outcome after fst snd].
  rewrite after_bind.
  assert (Hlook : map_lookup exports key st = (Ok None, st, [])).
  { unfold map_lookup, bind, get, ret. rewrite Hjm. cbn [mbind option_bind].
    rewrite Hkey. reflexivity. }
  rewrite Hlook. cbn [outcome after fst snd].
  rewrite after_bind. cbn [new_FileInfos bind get put ret outcome after fst snd].
  rewrite after_bind. cbn [map_store modify outcome after fst snd].
  match goal with |- registered (after (?rest ?st2)) key = _ =>
    assert (Hkeeps : keeps_registry rest); [|destruct (Hkeeps st2) as [Hb Hj]] end.
  { pose proof keeps_time_Now. pose proof keeps_TempDir.
    pose proof keeps_foreground_worker.
    apply keeps_bind; [assumption|]. intros t.
    apply keeps_bind; [auto|]. intros saveDir.
    destruct Hout as [->| ->]; cbn [String.eqb Ascii.eqb Bool.eqb orb]; auto 10 with run. }
  unfold registered. rewrite Hb, Hj.
  cbn [backgrounds jobmaps set_jobmaps set_next set_infos].
  rewrite Hbg. cbn [mbind option_bind].
  rewrite lookup_alter_eq, Hjm. cbn [fmap option_fmap option_map mbind option_bind].
  apply lookup_insert_eq.
Qed.

End HandlerProperties.

(** * The properties at concrete requests *)

Section Scenarios.

Local Open Scope nat_scope.

Lemma Export_rejects_invalid_witness :
  let x := Export quiet (mkDbAuth "db:3307" "root" "pw" "shop" "klingon") shop_tables
             (WPath struct_file) (WStream 7 true) [true] empty_world in
  outcome x = Err ErrCharset
  /\ after x = empty_world
  /\ events x = [EvLog shop_tables]
  /\ starts (events x) = []
  /\ Forall unmarked (events x).
Proof.
  apply (Export_rejects_invalid quiet (mkDbAuth "db:3307" "root" "pw" "shop" "klingon")
           shop_tables (WPath struct_file) (WStream 7 true) [true] empty_world).
  right. reflexivity.
Defined.

Lemma Export_closes_writers_witness :
  In (EvClose (SFile struct_file))
     [ EvWriter (SFile struct_file);
       EvStart (Export_args shop_cfg "db" "3307" ++ shop_tables);
       EvCopy (SFile struct_file) [x41; x42];
       EvWait (Export_args shop_cfg "db" "3307" ++ shop_tables);
       EvCloseStdout;
       EvClose (SFile struct_file) ].
Proof.
  destruct (Export_closes_writers dump_broken shop_cfg shop_tables (WPath struct_file)
              (WStream 7 true) [] empty_world) as [Hfile _].
  apply (Hfile [EvLog shop_tables; EvMkdirAll "/tmp/dbmanager/cache/export"]
           struct_file).
  vm_compute. reflexivity.
Defined.

Lemma Export_start_args_witness :
  starts (events (Export quiet shop_cfg shop_tables (WPath struct_file) (WStream 7 false)
                    [] empty_world))
  = [ [ "--default-character-set=utf8"; "--single-transaction"; "--set-gtid-purged=OFF";
        "--no-autocommit"; "--opt"; "-d"; "-hdb"; "-P3307"; "-uroot"; "-ppw"; "shop";
        "users"; "orders" ];
      [ "--default-character-set=utf8"; "--single-transaction"; "--set-gtid-purged=OFF";
        "--no-autocommit"; "--opt"; "-t"; "-hdb"; "-P3307"; "-uroot"; "-ppw"; "shop";
        "users"; "orders" ] ].
Proof.
  destruct (Export_start_args quiet shop_cfg shop_tables (WPath struct_file)
              (WStream 7 false) [] empty_world) as (_ & Hdone & _).
  - discriminate.
  - reflexivity.
  - rewrite Hdone by (vm_compute; reflexivity). vm_compute. reflexivity.
Defined.


Lemma duplicate_rejected_witness :
  mySQL_Export quiet (shop_request "") (after background_submitted)
  = (Err ErrRunning, after background_submitted, []).
Proof.
  apply (duplicate_rejected quiet (shop_request "") shop_tables
           (after background_submitted) 1).
  - reflexivity.
  - discriminate.
  - reflexivity.
  - vm_compute. reflexivity.
Defined.

(** The goroutine that [archive_submitted] starts is [worker] with these
    captured values. *)
Lemma archive_job_is_worker :
  run_job (outcome archive_submitted) (after archive_submitted)
  = worker zip_broken (shop_request "") shop_cfg shop_tables (WPath struct_file)
      (WPath data_file) [struct_file; data_file] 1 0
      (cacheKey shop_tables "" ["struct"; "data"]) "/tmp/dbmanager/cache/export" "0"
      (after archive_submitted).
Proof. vm_compute. reflexivity. Qed.

Lemma worker_keeps_all_on_zip_failure_witness :
  let x := worker zip_broken (shop_request "") shop_cfg shop_tables (WPath struct_file)
             (WPath data_file) [struct_file; data_file] 1 0
             (cacheKey shop_tables "" ["struct"; "data"]) "/tmp/dbmanager/cache/export" "0"
             (after archive_submitted) in
  outcome x = Err (ErrOS "disk full")
  /\ registered (after x) (cacheKey shop_tables "" ["struct"; "data"]) = Some 1%nat.
Proof.
  destruct (worker_keeps_all_on_zip_failure zip_broken (shop_request "") shop_cfg
              shop_tables (WPath struct_file) (WPath data_file) [struct_file; data_file]
              1 0 (cacheKey shop_tables "" ["struct"; "data"])
              "/tmp/dbmanager/cache/export" "0" (after archive_submitted) "disk full")
    as (H1 & _ & _ & _ & _ & H6).
  - vm_compute. reflexivity.
  - discriminate.
  - reflexivity.
  - split; [exact H1|]. cbv zeta. rewrite H6. vm_compute. reflexivity.
Defined.

(** A foreground export on a server on which no export map has been stored
    yet leaves [backgrounds] empty: the map it filled is its own. *)
Lemma foreground_export_on_fresh_server :
  let x := mySQL_Export quiet (shop_request "open") empty_world in
  outcome x = Ok Streamed
  /\ backgrounds (after x) = ∅
  /\ registered (after x) (cacheKey shop_tables "open" ["struct"; "data"]) = None
  /\ outcome (mySQL_Export quiet (shop_request "open") (after x)) = Ok Streamed.
Proof.
  cbv zeta.
  split; [vm_compute; reflexivity|].
  split; [vm_compute; reflexivity|].
  split; vm_compute; reflexivity.
Qed.

(** C8 (the code at the failing input): once a background export has
    stored its map in [backgrounds], a foreground export writes its
    fingerprint into that same map and never takes it out: the entry is
    still there when the call has returned, and the same request, made
    again, is refused as already running without starting anything. *)
Theorem foreground_export_stays_registered :
  let key := cacheKey shop_tables "open" ["struct"; "data"] in
  outcome background_done = Ok tt
  /\ registered (after background_done) key = None
  /\ outcome foreground_first = Ok Streamed
  /\ files (after foreground_first) = files (after background_done)
  /\ registered (after foreground_first) key = Some 2%nat
  /\ outcome foreground_again = Err ErrRunning
  /\ events foreground_again = [].
Proof.
  cbv zeta.
  split; [vm_compute; reflexivity|].
  split; [vm_compute; reflexivity|].
  split; [vm_compute; reflexivity|].
  split; [vm_compute; reflexivity|].
  split; [vm_compute; reflexivity|].
  split; vm_compute; reflexivity.
Qed.

End Scenarios.

(** * Further properties of [Export] *)

Section ExportEdges.

Variable E : Env.

Local Open Scope nat_scope.

(** X1: with valid input but neither writer set, [Export] writes its log
    line and returns [nil]: no subprocess, no file, the world as before. *)
Theorem Export_without_writers cfg tables rs st :
  tables <> [] -> InSlice (Charset cfg) (Charsets E) = true ->
  Export E cfg tables WNil WNil rs st = (Ok tt, st, [EvLog tables]).
Proof.
  intros Ht Hc. rewrite Export_run by assumption. reflexivity.
Qed.

(** X2: when the first writer that is not [nil] is neither an [io.Writer]
    nor a string, [Export] returns the unsupported-writer error at once:
    nothing is started or created, and a second writer is not looked at. *)
Theorem Export_unsupported_writer cfg tables sw dw rs st :
  tables <> [] -> InSlice (Charset cfg) (Charsets E) = true ->
  sw = WOther \/ (sw = WNil /\ dw = WOther) ->
  Export E cfg tables sw dw rs st = (Err ErrUnsupported, st, [EvLog tables]).
Proof.
  intros Ht Hc Hw. rewrite Export_run by assumption.
  destruct Hw as [->|[-> ->]]; reflexivity.
Qed.

(** X3: when mysqldump, writing to a stream, exits with an error, [Export]
    returns that error together with the recorded standard error output;
    the stream has received what was copied and is closed if it can be, and
    the data pass is not run. *)
Theorem Export_reports_exit_error cfg tables id closer dw rs st data cause :
  tables <> [] -> InSlice (Charset cfg) (Charsets E) = true ->
  let args := Export_args cfg (fst (Export_host_port (Host cfg)))
                (snd (Export_host_port (Host cfg))) ++ tables in
  pipe_fault E args = None -> start_fault E args = None ->
  copy_result E args = (data, None) -> wait_fault E args = Some cause ->
  Export E cfg tables (WStream id closer) dw rs st
  = (Err (ErrExit cause (Stderr E args)), st,
     [EvLog tables; EvWriter (SStream id closer); EvStart args;
      EvCopy (SStream id closer) data; EvWait args; EvCloseStdout]
     ++ closes (SStream id closer)).
Proof.
  intros Ht Hc args Hpipe Hstart Hcopy Hwait. rewrite Export_run by assumption.
  fold args. cbn [dump_passes Nat.ltb Nat.leb].
  unfold dump_pass, relay. rewrite Hpipe, Hstart, Hcopy, Hwait.
  unfold closes, clean. destruct closer; reflexivity.
Qed.

End ExportEdges.

(** * What [Export] leaves in the files *)

Section ExportFiles.

Variable E : Env.

Local Open Scope nat_scope.

(** One pass to a file, when nothing fails. *)
Lemma dump_pass_to_file index reset v args out st :
  runs_clean E v args out ->
  (index = 0 -> reset = true -> write_fault E v = None) ->
  let x := dump_pass E index reset (WPath v) args st in
  outcome x = Ok tt
  /\ files (after x) = <[v := finished_content index reset out]> (files st).
Proof.
  intros (Hmk & Hcr & Hpipe & Hstart & Hcopy & Hwait) Hwr x. subst x.
  unfold dump_pass, resolve_writer, relay, MkdirAll, Create, ResetAutoIncrement,
    WriteFile, finished_content.
  rewrite Hmk, Hcr, Hpipe, Hstart, Hcopy, Hwait.
  destruct index as [|index]; cbn [Nat.ltb Nat.leb];
    [destruct reset; [rewrite (Hwr eq_refl eq_refl)|]|];
    cbv [bind IsDir get ret try modify emit throw clean closable Sink_Write ReadFile
         outcome after fst snd];
    destruct (bool_decide _);
    cbn [files set_files set_dirs];
    rewrite ?lookup_insert_eq; cbn [default app files set_files set_dirs];
    rewrite ?lookup_insert_eq, ?insert_insert_eq; split; reflexivity.
Qed.

(** X4: when nothing fails, an export of both kinds to two files leaves in
    the data file exactly what the second mysqldump printed, and in the
    structure file what the first one printed, with the counters removed
    if the reset was asked for; no other file is changed. *)
Theorem Export_file_contents cfg tables v1 v2 rs st out_d out_t :
  tables <> [] -> InSlice (Charset cfg) (Charsets E) = true ->
  let args_d := Export_args cfg (fst (Export_host_port (Host cfg)))
                  (snd (Export_host_port (Host cfg))) ++ tables in
  let args_t := <[5 := "-t"]> args_d in
  runs_clean E v1 args_d out_d -> runs_clean E v2 args_t out_t ->
  (reset_flag rs = true -> write_fault E v1 = None) ->
  let x := Export E cfg tables (WPath v1) (WPath v2) rs st in
  outcome x = Ok tt
  /\ files (after x)
     = <[v2 := out_t]> (<[v1 := finished_content 0 (reset_flag rs) out_d]> (files st)).
Proof.
  intros Ht Hc args_d args_t H1 H2 Hwr x. subst x.
  rewrite Export_run by assumption. fold args_d.
  cbn [dump_passes Nat.ltb Nat.leb]. fold args_t.
  rewrite !outcome_bind, !after_bind. cbn [outcome after emit ret fst snd].
  destruct (dump_pass_to_file 0 (reset_flag rs) v1 args_d out_d st H1) as [Ho1 Hf1];
    [auto|].
  rewrite Ho1.
  destruct (dump_pass_to_file 1 (reset_flag rs) v2 args_t out_t
              (after (dump_pass E 0 (reset_flag rs) (WPath v1) args_d st)) H2)
    as [Ho2 Hf2]; [discriminate|].
  rewrite Ho2. split; [reflexivity|].
  rewrite Hf2, Hf1. reflexivity.
Qed.

End ExportFiles.

(** * The files [Export] can change *)

Section ExportFrame.

Variable E : Env.

Local Open Scope nat_scope.

Lemma touches_bind {A B} paths (m : M A) (k : A -> M B) :
  touches_only paths m -> (forall a, touches_only paths (k a)) ->
  touches_only paths (bind m k).
Proof.
  intros Hm Hk st p Hp. rewrite after_bind.
  destruct (outcome (m st)) as [a|e]; [|apply Hm, Hp].
  rewrite (Hk a _ p Hp). apply Hm, Hp.
Qed.

Lemma touches_try {A} paths (m : M A) : touches_only paths m -> touches_only paths (try m).
Proof.
  intros Hm st p Hp. specialize (Hm st p Hp). unfold try, after in *.
  destruct (m st) as [[r w1] evs1]. exact Hm.
Qed.

Lemma touches_same {A} paths (m : M A) :
  (forall st, files (after (m st)) = files st) -> touches_only paths m.
Proof. intros H st p _. rewrite H. reflexivity. Qed.

Lemma touches_IsDir paths dir : touches_only paths (IsDir dir).
Proof. apply touches_same. reflexivity. Qed.

Lemma touches_MkdirAll paths dir : touches_only paths (MkdirAll E dir).
Proof.
  apply touches_same. intros st. unfold MkdirAll.
  destruct (mkdir_fault E dir); reflexivity.
Qed.

Lemma touches_clean paths w : touches_only paths (clean w).
Proof.
  apply touches_same. intros st. unfold clean. destruct (closable w); reflexivity.
Qed.

Lemma touches_emit paths ev : touches_only paths (emit ev).
Proof. apply touches_same. reflexivity. Qed.

Lemma touches_ret {A} paths (a : A) : touches_only paths (ret a).
Proof. apply touches_same. reflexivity. Qed.

Lemma touches_throw {A} paths e : touches_only paths (@throw A e).
Proof. apply touches_same. reflexivity. Qed.

Lemma touches_Create paths v : In v paths -> touches_only paths (Create E v).
Proof.
  intros Hv st p Hp. unfold Create. destruct (create_fault E v); [reflexivity|].
  cbv [bind modify emit ret after fst snd]. cbn [files set_files].
  apply lookup_insert_ne. intros ->. exact (Hp Hv).
Qed.

Lemma touches_WriteFile paths v b : In v paths -> touches_only paths (WriteFile E v b).
Proof.
  intros Hv st p Hp. unfold WriteFile.
  destruct (write_fault E v); [destruct (write_torn E v b); [|reflexivity]|];
    cbv [bind modify emit ret throw after fst snd]; cbn [files set_files];
    apply lookup_insert_ne; intros ->; exact (Hp Hv).
Qed.

Lemma touches_ResetAutoIncrement paths v :
  In v paths -> touches_only paths (ResetAutoIncrement E v).
Proof.
  intros Hv. unfold ResetAutoIncrement. apply touches_bind.
  - apply touches_same. intros st. unfold ReadFile, bind, get.
    destruct (files st !! v); reflexivity.
  - intros b. apply touches_WriteFile, Hv.
Qed.

(** The files behind a sink. *)
Lemma touches_Sink_Write paths w data :
  (forall v, w = SFile v -> In v paths) -> touches_only paths (Sink_Write w data).
Proof.
  intros Hw st p Hp. unfold Sink_Write. destruct w as [id closer|v]; [reflexivity|].
  cbv [bind modify emit ret after fst snd]. cbn [files set_files].
  apply lookup_insert_ne. intros Heq. apply Hp. rewrite <- Heq. apply Hw. reflexivity.
Qed.

Lemma touches_resolve_writer index reset writer :
  touches_only (writer_paths writer) (resolve_writer E index reset writer).
Proof.
  destruct writer as [|id closer|v|]; unfold resolve_writer;
    try (apply touches_same; reflexivity).
  assert (Hv : In v (writer_paths (WPath v))) by (left; reflexivity).
  apply touches_bind; [apply touches_IsDir|]. intros isdir.
  apply touches_bind.
  { destruct isdir; [apply touches_ret | apply touches_try, touches_MkdirAll]. }
  intros [[]|e]; [|apply touches_throw].
  apply touches_bind; [apply touches_try, touches_Create, Hv|].
  intros [w|e]; [apply touches_ret | apply touches_throw].
Qed.

Lemma Create_result v st w st' evs :
  Create E v st = (Ok w, st', evs) -> w = SFile v.
Proof.
  unfold Create. destruct (create_fault E v); [discriminate|].
  cbv [bind modify emit ret]. congruence.
Qed.

Lemma resolve_writer_result index reset writer st w onFinish :
  outcome (resolve_writer E index reset writer st) = Ok (w, onFinish) ->
  (forall v, w = SFile v -> In v (writer_paths writer))
  /\ match onFinish with
     | Some f => touches_only (writer_paths writer) f
     | None => True
     end.
Proof.
  destruct writer as [|id closer|v|];
    cbv [resolve_writer bind IsDir get ret try throw outcome fst].
  - discriminate.
  - intros Heq. injection Heq as <- <-. split; [discriminate | exact I].
  - assert (Hv : In v (writer_paths (WPath v))) by (left; reflexivity).
    destruct (bool_decide _).
    + destruct (Create E v st) as [[[w1|e1] st2] evs2] eqn:Hcr; [|discriminate].
      apply Create_result in Hcr as ->.
      intros Heq. injection Heq as <- <-.
      split; [intros ? [= <-]; exact Hv|].
      destruct (0 <? index); [apply touches_ret|].
      destruct reset; [apply touches_ResetAutoIncrement, Hv | apply touches_ret].
    + destruct (MkdirAll E (filepath_Dir E v) st) as [[[[]|e0] st1] evs1]; [|discriminate].
      destruct (Create E v st1) as [[[w1|e1] st2] evs2] eqn:Hcr; [|discriminate].
      apply Create_result in Hcr as ->.
      intros Heq. injection Heq as <- <-.
      split; [intros ? [= <-]; exact Hv|].
      destruct (0 <? index); [apply touches_ret|].
      destruct reset; [apply touches_ResetAutoIncrement, Hv | apply touches_ret].
  - discriminate.
Qed.

Lemma touches_relay paths w onFinish args :
  (forall v, w = SFile v -> In v paths) ->
  match onFinish with Some f => touches_only paths f | None => True end ->
  touches_only paths (relay E w onFinish args).
Proof.
  intros Hw Hf. unfold relay.
  pose proof (touches_clean paths w) as Hc.
  pose proof (touches_Sink_Write paths w) as Hs.
  repeat first
    [ apply touches_bind; [|intros ?]
    | apply touches_emit | apply touches_throw | apply touches_ret
    | apply Hc | apply Hs; exact Hw
    | match goal with
      | |- touches_only _ (match ?x with _ => _ end) => destruct x
      end
    | exact Hf ].
Qed.

Lemma touches_dump_pass index reset writer args :
  touches_only (writer_paths writer) (dump_pass E index reset writer args).
Proof.
  intros st p Hp. rewrite dump_pass_unfold, after_bind.
  pose proof (touches_resolve_writer index reset writer st p Hp) as Hpre.
  destruct (outcome (resolve_writer E index reset writer st)) as [[w f]|e] eqn:Hr;
    [|exact Hpre].
  cbn [fst snd].
  destruct (marked_relay E w f args (after (resolve_writer E index reset writer st)))
    as (_ & -> & _).
  destruct (resolve_writer_result _ _ _ _ _ _ Hr) as [Hw Hf].
  rewrite (touches_relay _ w f args Hw Hf _ p Hp). exact Hpre.
Qed.

Lemma touches_weaken {A} paths paths' (m : M A) :
  (forall p, In p paths -> In p paths') -> touches_only paths m -> touches_only paths' m.
Proof. intros Hsub Hm st p Hp. apply Hm. auto. Qed.

Lemma touches_dump_passes reset t writers : forall index args,
  touches_only (concat (map writer_paths writers))
    (dump_passes E reset t index writers args).
Proof.
  induction writers as [|writer writers IH]; intros index args; [apply touches_ret|].
  destruct (decide (writer = WNil)) as [->|Hw]; [apply IH|].
  rewrite (dump_passes_cons E _ _ _ _ _ _ Hw). cbv zeta.
  cbn [map concat].
  apply touches_bind.
  - eapply touches_weaken; [|apply touches_dump_pass].
    intros p Hp. apply in_or_app. left. exact Hp.
  - intros _. eapply touches_weaken; [|apply IH].
    intros p Hp. apply in_or_app. right. exact Hp.
Qed.

(** X5: whatever fails or succeeds, [Export] changes no file other than
    those its two writers name, and it leaves the Job Registry alone. *)
Theorem Export_frame cfg tables sw dw rs st :
  let x := Export E cfg tables sw dw rs st in
  (forall p, ~ In p (writer_paths sw ++ writer_paths dw) ->
     files (after x) !! p = files st !! p)
  /\ backgrounds (after x) = backgrounds st
  /\ jobmaps (after x) = jobmaps st.
Proof.
  intros x. split; [|apply keeps_Export].
  assert (H : touches_only (writer_paths sw ++ writer_paths dw)
                (Export E cfg tables sw dw rs)).
  { unfold Export. destruct (length tables =? 0); [apply touches_throw|].
    apply touches_bind; [apply touches_emit|]. intros _.
    destruct (Export_host_port (Host cfg)) as [host port].
    destruct (negb _); [apply touches_throw|].
    eapply touches_weaken; [|apply touches_dump_passes].
    cbn [map concat]. intros p. rewrite app_nil_r. auto. }
  exact (H st).
Qed.

End ExportFrame.

(** * More on the regular expression and [ResetAutoIncrement] *)

Section CountersRemoved.

Local Open Scope nat_scope.

Lemma space_not_digit b : is_space b = true -> is_digit b = false.
Proof. destruct b; try discriminate; reflexivity. Qed.

Lemma skip_while_all f l rest :
  Forall (fun b => f b = true) l ->
  match rest with [] => True | c :: _ => f c = false end ->
  skip_while f (l ++ rest) = rest.
Proof.
  intros Hl Hrest. induction Hl as [|b l Hb _ IH]; simpl.
  - destruct rest as [|c rest]; [reflexivity|]. simpl. rewrite Hrest. reflexivity.
  - rewrite Hb. exact IH.
Qed.

Lemma match_here_counter ds ws rest :
  Forall (fun b => is_digit b = true) ds ->
  Forall (fun b => is_space b = true) ws ->
  match rest with [] => True | c :: _ => is_digit c = false /\ is_space c = false end ->
  match_here (pattern_head ++ ds ++ ws ++ rest) = Some rest.
Proof.
  intros Hds Hws Hrest. unfold match_here.
  assert (Hp : has_prefix pattern_head (pattern_head ++ ds ++ ws ++ rest) = true)
    by (apply has_prefix_true; eauto).
  rewrite Hp, drop_app_length. f_equal.
  rewrite (skip_while_all is_digit ds (ws ++ rest) Hds).
  - apply skip_while_all; [exact Hws|]. destruct rest; tauto.
  - destruct Hws as [|b ws Hb _]; simpl.
    + destruct rest; tauto.
    + apply space_not_digit, Hb.
Qed.

(** A text that does not hold the literal in front of position [length p]
    cannot match it across a space. *)
Lemma has_prefix_across l : forall p t,
  Forall (fun b => b <> x20) l ->
  has_prefix l (p ++ x20 :: t) = true -> has_prefix l p = true.
Proof.
  induction l as [|a l IH]; intros p t Hl H; [reflexivity|].
  inversion Hl as [|? ? Ha Hl']; subst.
  destruct p as [|b p]; simpl in H |- *.
  - apply andb_true_iff in H as [H _]. apply Byte.byte_dec_bl in H. congruence.
  - apply andb_true_iff in H as [Hab H]. rewrite Hab. simpl. eauto.
Qed.

Lemma strip_keeps_prefix pre : forall s,
  ~ occurs pattern_head pre ->
  cleanRegExp_ReplaceAll (pre ++ pattern_head ++ s)
  = pre ++ cleanRegExp_ReplaceAll (pattern_head ++ s).
Proof.
  induction pre as [|c pre IH]; intros s Hno; [reflexivity|].
  assert (Hm : match_here ((c :: pre) ++ pattern_head ++ s) = None).
  { unfold match_here.
    destruct (has_prefix pattern_head _) eqn:Hp; [|reflexivity].
    exfalso. apply Hno. simpl in Hp. apply andb_true_iff in Hp as [Hc Hp].
    apply Byte.byte_dec_bl in Hc. subst c.
    change (pattern_head ++ s) with (x20 :: literal ++ s) in Hp.
    apply (has_prefix_across literal pre (literal ++ s) literal_plain) in Hp.
    apply has_prefix_true in Hp as [r ->].
    exists [], r. reflexivity. }
  change ((c :: pre) ++ pattern_head ++ s) with (c :: (pre ++ pattern_head ++ s)) in *.
  rewrite (strip_skip _ _ Hm).
  change ((c :: pre) ++ cleanRegExp_ReplaceAll (pattern_head ++ s))
    with (c :: (pre ++ cleanRegExp_ReplaceAll (pattern_head ++ s))).
  f_equal. apply IH. intros (a & b & ->). apply Hno. exists (c :: a), b. reflexivity.
Qed.

(** X6: a counter [ AUTO_INCREMENT=<digits>] with the white space after it
    is replaced by one space; the text in front of it, when it holds no
    [ AUTO_INCREMENT=] itself, is kept as it is, and the transform goes on
    with the text that follows. *)
Theorem strip_counter pre ds ws rest :
  ~ occurs pattern_head pre ->
  Forall (fun b => is_digit b = true) ds ->
  Forall (fun b => is_space b = true) ws ->
  match rest with [] => True | c :: _ => is_digit c = false /\ is_space c = false end ->
  cleanRegExp_ReplaceAll (pre ++ pattern_head ++ ds ++ ws ++ rest)
  = pre ++ x20 :: cleanRegExp_ReplaceAll rest.
Proof.
  intros Hpre Hds Hws Hrest.
  rewrite (strip_keeps_prefix pre _ Hpre). f_equal.
  apply strip_match, match_here_counter; assumption.
Qed.

Lemma strip_length_le n : forall s, length s <= n ->
  length (cleanRegExp_ReplaceAll s) <= length s.
Proof.
  induction n as [|n IH]; intros s Hn.
  - destruct s; [simpl; lia | simpl in Hn; lia].
  - destruct s as [|c t]; [simpl; lia|]. simpl in Hn.
    destruct (match_here (c :: t)) as [rest|] eqn:Hm.
    + rewrite (strip_match _ _ Hm).
      pose proof (match_here_split _ _ Hm) as (ds & ws & Hs & _).
      assert (Hlen : length rest + 16 <= length (c :: t)).
      { rewrite Hs, !length_app. change (length pattern_head) with 16. lia. }
      simpl in Hlen |- *. specialize (IH rest). lia.
    + rewrite (strip_skip _ _ Hm). simpl. specialize (IH t). lia.
Qed.

(** X7: the transform never makes a text longer, and it returns a text
    that holds no [ AUTO_INCREMENT=] unchanged. *)
Theorem strip_shrinks s :
  length (cleanRegExp_ReplaceAll s) <= length s
  /\ (~ occurs pattern_head s -> cleanRegExp_ReplaceAll s = s).
Proof.
  split; [apply (strip_length_le (length s)); lia | apply strip_fixed].
Qed.

End CountersRemoved.

Section ResetFile.

Variable E : Env.

(** X8: what [ResetAutoIncrement] returns and leaves behind.  When the file
    cannot be read, it returns that error and the world is as before.  When
    the write fails, it returns that error and the file is as it was if it
    could not be opened, and is otherwise left with what the failed write
    put there, which may be nothing.  When it returns [nil], the file holds
    the transform of its former content.  In no case is another file
    changed. *)
Theorem ResetAutoIncrement_outcomes f st :
  let x := ResetAutoIncrement E f st in
  (forall p, p <> f -> files (after x) !! p = files st !! p)
  /\ match files st !! f with
     | None => x = (Err (ErrNotExist f), st, [])
     | Some b =>
         match write_fault E f with
         | None =>
             outcome x = Ok tt
             /\ files (after x) = <[f := cleanRegExp_ReplaceAll b]> (files st)
             /\ events x = [EvWriteFile f]
         | Some cause =>
             outcome x = Err (ErrOS cause)
             /\ events x = []
             /\ files (after x) !! f
                = Some (default b (write_torn E f (cleanRegExp_ReplaceAll b)))
         end
     end.
Proof.
  unfold ResetAutoIncrement, ReadFile, WriteFile.
  cbv [bind get ret throw modify emit outcome after events fst snd].
  destruct (files st !! f) as [b|] eqn:Hf; [|split; reflexivity].
  destruct (write_fault E f) as [cause|] eqn:Hw.
  - destruct (write_torn E f (cleanRegExp_ReplaceAll b)) as [torn|];
      cbn [files set_files default app].
    + split; [intros p Hp; apply lookup_insert_ne; congruence|].
      split; [reflexivity|]. split; [reflexivity | apply lookup_insert_eq].
    + split; [reflexivity|]. split; [reflexivity|]. split; [reflexivity | exact Hf].
  - cbn [files set_files app].
    split; [intros p Hp; apply lookup_insert_ne; congruence|].
    split; [reflexivity|]. split; reflexivity.
Qed.

(** X9: run twice on a file in which no counter is directly followed by
    the text [AUTO_INCREMENT=], [ResetAutoIncrement] leaves the file the
    second time as the first run left it. *)
Theorem ResetAutoIncrement_twice f st b :
  files st !! f = Some b -> write_fault E f = None ->
  adjacent_match b = false ->
  let x1 := ResetAutoIncrement E f st in
  let x2 := ResetAutoIncrement E f (after x1) in
  outcome x1 = Ok tt /\ outcome x2 = Ok tt
  /\ files (after x2) = files (after x1)
  /\ files (after x1) !! f = Some (cleanRegExp_ReplaceAll b).
Proof.
  intros Hf Hw Hadj.
  assert (Hno : ~ occurs pattern_head (cleanRegExp_ReplaceAll b)).
  { intros Ho. apply (strip_occurs_adjacent (length b)) in Ho; [congruence | lia]. }
  unfold ResetAutoIncrement, ReadFile, WriteFile. rewrite Hw.
  cbv [bind get ret throw modify emit outcome after events fst snd].
  rewrite Hf. cbn [files set_files]. rewrite lookup_insert_eq.
  cbn [files set_files]. rewrite insert_insert_eq, (strip_fixed _ Hno). auto.
Qed.

End ResetFile.

(** * [TempDir] (lines 84-93) *)

Section TempDirFacts.

Variable E : Env.

(** X10: [TempDir] always returns the cache path and never an error.  A
    directory that is missing is made once: after a successful call it
    exists and a second call does nothing at all.  When the directory
    cannot be made, the error is only logged. *)
Theorem TempDir_makes_directory_once op st :
  let dir := filepath_Join E [SQLTempDir E; "dbmanager/cache"; op] in
  let x := TempDir E op st in
  outcome x = Ok dir
  /\ files (after x) = files st
  /\ (dir ∈ dirs st -> x = (Ok dir, st, []))
  /\ (mkdir_fault E dir = None ->
        dir ∈ dirs (after x) /\ TempDir E op (after x) = (Ok dir, after x, []))
  /\ (forall cause, dir ∉ dirs st -> mkdir_fault E dir = Some cause ->
        x = (Ok dir, st, [EvLogError (ErrOS cause)])).
Proof.
  intros dir x. subst x. unfold TempDir. fold dir. unfold MkdirAll.
  cbv [bind IsDir get ret try throw modify emit outcome after events fst snd].
  case_bool_decide as Hdir.
  - cbn [app]. split; [reflexivity|]. split; [reflexivity|].
    split; [reflexivity|]. split; [|contradiction].
    intros _. split; [exact Hdir|].
    rewrite bool_decide_eq_true_2 by exact Hdir. reflexivity.
  - destruct (mkdir_fault E dir) as [cause|] eqn:Hmk; cbn [app files set_dirs].
    + split; [reflexivity|]. split; [reflexivity|].
      split; [contradiction|]. split; [discriminate|].
      intros c _ [= <-]. reflexivity.
    + split; [reflexivity|]. split; [reflexivity|].
      split; [contradiction|]. split; [|discriminate].
      intros _. cbn [dirs set_dirs]. split; [set_solver|].
      rewrite bool_decide_eq_true_2 by set_solver. reflexivity.
Qed.

End TempDirFacts.

(** * [getCharsetList] (lines 235-243) *)

Section CharsetList.

Context {V : Type}.

Lemma collect_keys (order acc : list string) :
  foldl (fun cs k => cs ++ [k]) acc order = acc ++ order.
Proof.
  revert acc. induction order as [|k order IH]; intros acc; simpl.
  - rewrite app_nil_r. reflexivity.
  - rewrite IH, <- app_assoc. reflexivity.
Qed.

Lemma getCharsetList_perm order : getCharsetList order ≡ₚ order.
Proof.
  unfold getCharsetList, sort_Strings. rewrite collect_keys.
  apply merge_sort_Permutation.
Qed.

(** X11: [getCharsetList] returns the names of the character sets in
    increasing order, each name once, and the same list whatever the order
    in which the map was traversed. *)
Theorem getCharsetList_sorted (e : gmap string V) order order' :
  ranges_over e order -> ranges_over e order' ->
  StronglySorted String.le (getCharsetList order)
  /\ NoDup (getCharsetList order)
  /\ (forall k, k ∈ getCharsetList order <-> is_Some (e !! k))
  /\ getCharsetList order' = getCharsetList order.
Proof.
  intros Ho Ho'. unfold ranges_over in *.
  assert (Hs : forall l, StronglySorted String.le (getCharsetList l)).
  { intros l. unfold getCharsetList, sort_Strings.
    apply StronglySorted_merge_sort; apply _. }
  split; [apply Hs|]. split; [|split].
  - rewrite getCharsetList_perm, Ho. apply NoDup_elements.
  - intros k. rewrite getCharsetList_perm, Ho, elem_of_elements. apply elem_of_dom.
  - apply (StronglySorted_unique String.le); [apply Hs | apply Hs |].
    rewrite !getCharsetList_perm, Ho, Ho'. reflexivity.
Qed.

End CharsetList.

(** * The closure [worker] (lines 336-384) *)

Section WorkerFacts.

Variable E : Env.

Local Open Scope nat_scope.

Lemma measure_all_run now l st :
  measure_all now l st = (Ok (map (measured (files st) now) l), st, []).
Proof.
  induction l as [|fi l IH]; [reflexivity|].
  cbn [measure_all map]. unfold bind at 1. unfold measure, FileSize, bind, get, measured.
  destruct (files st !! Path fi); cbn [ret fst snd default]; rewrite IH; reflexivity.
Qed.

Lemma remove_all_run sqlFiles : forall st,
  exists removed,
    remove_all E sqlFiles st
    = (Ok tt, set_files (remove_files E sqlFiles (files st)) st, removed).
Proof.
  induction sqlFiles as [|f rest IH]; intros st.
  - exists []. destruct st. reflexivity.
  - cbn [remove_all remove_files foldl]. fold (remove_files E rest).
    unfold bind at 1. unfold try, Remove.
    destruct (remove_fault E f) as [cause|]; cbv [throw bind get].
    + destruct (IH st) as [removed ->]. exists removed. reflexivity.
    + destruct (files st !! f) as [b|] eqn:Hf; cbv [put emit bind].
      * destruct (IH (set_files (delete f (files st)) st)) as [removed ->].
        exists (EvRemove f :: removed). destruct st. reflexivity.
      * destruct (IH st) as [removed ->]. exists removed.
        rewrite (delete_id (files st) f Hf). reflexivity.
Qed.

Lemma remove_files_lookup sqlFiles : forall fs p,
  remove_files E sqlFiles fs !! p
  = if bool_decide (p ∈ sqlFiles) && bool_decide (remove_fault E p = None)
    then None else fs !! p.
Proof.
  induction sqlFiles as [|f rest IH]; intros fs p.
  - rewrite bool_decide_eq_false_2 by apply not_elem_of_nil. reflexivity.
  - change (remove_files E (f :: rest) fs)
      with (remove_files E rest
              (match remove_fault E f with Some _ => fs | None => delete f fs end)).
    rewrite IH.
    destruct (decide (f = p)) as [->|Hne].
    + rewrite (bool_decide_eq_true_2 (p ∈ p :: rest)) by apply list_elem_of_here.
      destruct (remove_fault E p) as [cause|] eqn:Hrm.
      * rewrite (bool_decide_eq_false_2 (Some cause = None)) by discriminate.
        rewrite !andb_false_r. reflexivity.
      * rewrite (bool_decide_eq_true_2 (None = None)) by reflexivity.
        rewrite !andb_true_r. cbn [andb].
        case_bool_decide; [reflexivity | apply lookup_delete_eq].
    + assert (Hstep : match remove_fault E f with
                      | Some _ => fs
                      | None => delete f fs
                      end !! p = fs !! p).
      { destruct (remove_fault E f); [reflexivity | apply lookup_delete_ne, Hne]. }
      rewrite Hstep.
      assert (Hmem : bool_decide (p ∈ f :: rest) = bool_decide (p ∈ rest)).
      { apply bool_decide_ext. rewrite elem_of_cons. intuition congruence. }
      rewrite Hmem. reflexivity.
Qed.

Lemma WriteFile_run path b st :
  exists r evs,
    WriteFile E path b st = (r, set_files (written E path b (files st)) st, evs).
Proof.
  unfold WriteFile, written. destruct (write_fault E path) as [cause|].
  - destruct (write_torn E path b) as [torn|]; cbv [bind modify throw ret];
      do 2 eexists; [reflexivity|]. destruct st. reflexivity.
  - cbv [bind modify emit]. do 2 eexists. reflexivity.
Qed.

Lemma written_lookup_ne path b fs p :
  p <> path -> written E path b fs !! p = fs !! p.
Proof.
  intros Hp. unfold written.
  destruct (write_fault E path); [destruct (write_torn E path b)|];
    rewrite ?lookup_insert_ne by congruence; reflexivity.
Qed.

(** What [worker] has done when the dump passes and the archiver went
    well. *)
Lemma worker_success_run m cfg tables sw dw sqlFiles fileInfos exports key
    saveDir nowTime st :
  outcome (Export E cfg tables sw dw [true] st) = Ok tt ->
  sqlFiles <> [] ->
  zip_fault E (zip_path E m saveDir nowTime) sqlFiles = None ->
  let x0 := Export E cfg tables sw dw [true] st in
  let st1 := after x0 in
  let zipFile := zip_path E m saveDir nowTime in
  let now := Now E (clock st1) in
  let finished := Now E (S (clock st1)) in
  let entries := map (measured (files st1) now) (default [] (infos st1 !! fileInfos)) in
  let zipped := <[zipFile := archive_of E sqlFiles (files st1)]> (files st1) in
  let kept := remove_files E sqlFiles zipped in
  let manifest :=
    entries ++ [archive_info zipFile now finished
                  ((fun b => Z.of_nat (length b)) <$> kept !! zipFile)] in
  let x := worker E m cfg tables sw dw sqlFiles fileInfos exports key saveDir nowTime st in
  outcome x = Ok tt
  /\ infos (after x) = <[fileInfos := manifest]> (infos st1)
  /\ files (after x) = written E (zipFile +:+ ".txt") (DumpInfos E manifest) kept
  /\ jobmaps (after x)
     = match jobmaps st1 !! exports ≫= (.!! key) with
       | Some _ => alter (delete key) exports (jobmaps st1)
       | None => jobmaps st1
       end
  /\ backgrounds (after x) = backgrounds st1.
Proof.
  intros Hok Hfiles Hzip x0 st1 zipFile now finished entries zipped kept manifest x.
  assert (Hlen : (0 <? length sqlFiles) = true)
    by (destruct sqlFiles; [congruence | reflexivity]).
  subst x. unfold worker. rewrite Hlen.
  cbv zeta. unfold Zip_Make. rewrite Hzip. fold zipFile.
  cbv [bind try time_Now get put ret read_infos write_infos append_info modify emit
       FileSize map_lookup map_delete].
  subst st1 x0. destruct (Export E cfg tables sw dw [true] st) as [[r0 st1] evs0].
  cbn [outcome after events fst snd] in *. subst r0.
  rewrite measure_all_run. cbn [files set_infos set_clock set_files].
  match goal with |- context [remove_all E sqlFiles ?w] =>
    destruct (remove_all_run sqlFiles w) as [removed ->] end.
  cbn [files set_infos set_clock set_files clock infos].
  subst manifest kept zipped entries now finished. unfold archive_of, archive_info.
  destruct (remove_files E sqlFiles _ !! zipFile) as [b|] eqn:Hk;
    cbn [fmap option_fmap option_map default];
    (match goal with |- context [WriteFile E ?p ?d ?w] =>
       destruct (WriteFile_run p d w) as (r & written_evs & ->) end;
     cbn [files set_infos set_clock set_files clock infos jobmaps fst snd];
     rewrite ?lookup_insert_eq; cbn [default];
     (destruct (jobmaps st1 !! exports ≫= (.!! key));
      cbn [outcome after events fst snd files infos jobmaps backgrounds
           set_infos set_clock set_files set_jobmaps app];
      rewrite ?insert_insert_eq; repeat split; reflexivity)).
Qed.

Lemma worker_export_failed_run m cfg tables sw dw sqlFiles fileInfos exports key
    saveDir nowTime st e :
  outcome (Export E cfg tables sw dw [true] st) = Err e ->
  worker E m cfg tables sw dw sqlFiles fileInfos exports key saveDir nowTime st
  = (Err e, after (Export E cfg tables sw dw [true] st),
     events (Export E cfg tables sw dw [true] st) ++ [EvLogError e]).
Proof.
  intros Hx0. unfold worker. cbv [bind try emit throw].
  destruct (Export E cfg tables sw dw [true] st) as [[r0 st1] evs0].
  cbn [outcome after events fst snd] in *. subst r0. reflexivity.
Qed.

Lemma worker_no_files_run m cfg tables sw dw fileInfos exports key saveDir nowTime st :
  outcome (Export E cfg tables sw dw [true] st) = Ok tt ->
  worker E m cfg tables sw dw [] fileInfos exports key saveDir nowTime st
  = (Ok tt, after (Export E cfg tables sw dw [true] st),
     events (Export E cfg tables sw dw [true] st)).
Proof.
  intros Hx0. unfold worker. cbn [length Nat.ltb Nat.leb]. cbv [bind try ret].
  destruct (Export E cfg tables sw dw [true] st) as [[r0 st1] evs0].
  cbn [outcome after events fst snd] in *. subst r0. rewrite app_nil_r. reflexivity.
Qed.

Lemma worker_zip_failed_run m cfg tables sw dw sqlFiles fileInfos exports key
    saveDir nowTime st cause :
  outcome (Export E cfg tables sw dw [true] st) = Ok tt ->
  sqlFiles <> [] ->
  zip_fault E (zip_path E m saveDir nowTime) sqlFiles = Some cause ->
  let x0 := Export E cfg tables sw dw [true] st in
  let x := worker E m cfg tables sw dw sqlFiles fileInfos exports key saveDir nowTime st in
  outcome x = Err (ErrOS cause)
  /\ files (after x) = files (after x0)
  /\ backgrounds (after x) = backgrounds (after x0)
  /\ jobmaps (after x) = jobmaps (after x0)
  /\ events x = events x0 ++ [EvLogError (ErrOS cause)].
Proof.
  intros Hok Hfiles Hzip x0 x.
  assert (Hlen : (0 <? length sqlFiles) = true)
    by (destruct sqlFiles; [congruence | reflexivity]).
  subst x x0. unfold worker. rewrite Hlen. cbv zeta. unfold Zip_Make. rewrite Hzip.
  cbv [bind try time_Now get put ret read_infos write_infos modify emit throw].
  destruct (Export E cfg tables sw dw [true] st) as [[r0 st1] evs0].
  cbn [outcome after events fst snd] in *. subst r0.
  rewrite measure_all_run. cbn [app]. repeat split.
Qed.

(** A [worker] that returned without error, with files to archive, went
    through both the dump and the archiver. *)
Lemma worker_ok_inv m cfg tables sw dw sqlFiles fileInfos exports key saveDir nowTime st :
  sqlFiles <> [] ->
  outcome (worker E m cfg tables sw dw sqlFiles fileInfos exports key saveDir nowTime st)
  = Ok tt ->
  outcome (Export E cfg tables sw dw [true] st) = Ok tt
  /\ zip_fault E (zip_path E m saveDir nowTime) sqlFiles = None.
Proof.
  intros Hne Hx.
  destruct (outcome (Export E cfg tables sw dw [true] st)) as [[]|e0] eqn:Hx0.
  2:{ rewrite (worker_export_failed_run _ _ _ _ _ _ _ _ _ _ _ _ _ Hx0) in Hx.
      discriminate. }
  destruct (zip_fault E (zip_path E m saveDir nowTime) sqlFiles) as [cause|] eqn:Hzip.
  { destruct (worker_zip_failed_run m cfg tables sw dw sqlFiles fileInfos exports key
                saveDir nowTime st cause Hx0 Hne Hzip) as (Ho & _).
    rewrite Ho in Hx. discriminate. }
  split; reflexivity.
Qed.

Lemma worker_release_run m cfg tables sw dw sqlFiles fileInfos exports key saveDir
    nowTime st :
  sqlFiles <> [] ->
  let x := worker E m cfg tables sw dw sqlFiles fileInfos exports key saveDir nowTime st in
  outcome x = Ok tt ->
  jobmaps (after x)
  = match jobmaps st !! exports ≫= (.!! key) with
    | Some _ => alter (delete key) exports (jobmaps st)
    | None => jobmaps st
    end
  /\ backgrounds (after x) = backgrounds st.
Proof.
  intros Hne x Hx. subst x.
  destruct (worker_ok_inv _ _ _ _ _ _ _ _ _ _ _ _ Hne Hx) as [Hx0 Hzip].
  destruct (keeps_Export E cfg tables sw dw [true] st) as [Hbg Hjm].
  destruct (worker_success_run m cfg tables sw dw sqlFiles fileInfos exports key
              saveDir nowTime st Hx0 Hne Hzip) as (_ & _ & _ & Hj & Hb).
  rewrite Hj, Hb, Hjm, Hbg. split; reflexivity.
Qed.

Lemma worker_error_registry m cfg tables sw dw sqlFiles fileInfos exports key saveDir
    nowTime st e :
  let x := worker E m cfg tables sw dw sqlFiles fileInfos exports key saveDir nowTime st in
  outcome x = Err e ->
  backgrounds (after x) = backgrounds st /\ jobmaps (after x) = jobmaps st.
Proof.
  intros x Hx. subst x.
  destruct (keeps_Export E cfg tables sw dw [true] st) as [Hbg Hjm].
  destruct (outcome (Export E cfg tables sw dw [true] st)) as [[]|e0] eqn:Hx0.
  - destruct sqlFiles as [|f0 sqlFiles'] eqn:Hsql.
    { rewrite (worker_no_files_run _ _ _ _ _ _ _ _ _ _ _ Hx0) in Hx. discriminate. }
    rewrite <- Hsql in *. assert (Hne : sqlFiles <> []) by (subst; discriminate).
    destruct (zip_fault E (zip_path E m saveDir nowTime) sqlFiles) as [cause|] eqn:Hzip.
    + destruct (worker_zip_failed_run m cfg tables sw dw sqlFiles fileInfos exports key
                  saveDir nowTime st cause Hx0 Hne Hzip) as (_ & _ & Hb & Hj & _).
      rewrite Hb, Hj. auto.
    + destruct (worker_success_run m cfg tables sw dw sqlFiles fileInfos exports key
                  saveDir nowTime st Hx0 Hne Hzip) as (Ho & _).
      rewrite Ho in Hx. discriminate.
  - rewrite (worker_export_failed_run _ _ _ _ _ _ _ _ _ _ _ _ _ Hx0).
    cbn [after fst snd]. auto.
Qed.

(** What [worker] does to the Job Registry, whatever its result. *)
Lemma worker_registry m cfg tables sw dw sqlFiles fileInfos exports key saveDir
    nowTime st :
  let x := worker E m cfg tables sw dw sqlFiles fileInfos exports key saveDir nowTime st in
  backgrounds (after x) = backgrounds st
  /\ (sqlFiles <> [] -> outcome x = Ok tt ->
      jobmaps (after x)
      = match jobmaps st !! exports ≫= (.!! key) with
        | Some _ => alter (delete key) exports (jobmaps st)
        | None => jobmaps st
        end)
  /\ (sqlFiles = [] \/ outcome x <> Ok tt -> jobmaps (after x) = jobmaps st).
Proof.
  intros x.
  assert (Hcases : (sqlFiles <> [] /\ outcome x = Ok tt)
                   \/ sqlFiles = [] \/ outcome x <> Ok tt).
  { destruct sqlFiles; [right; left; reflexivity|].
    destruct (outcome x) as [[]|e]; [left; split; [discriminate|reflexivity]|].
    right. right. discriminate. }
  destruct Hcases as [[Hne Hok]|Hstays].
  - destruct (worker_release_run m cfg tables sw dw sqlFiles fileInfos exports key saveDir
                nowTime st Hne Hok) as [Hj Hb].
    split; [exact Hb|]. split; [intros _ _; exact Hj|].
    intros [Hnil|Hbad]; [contradiction | destruct (Hbad Hok)].
  - assert (Hkeeps : backgrounds (after x) = backgrounds st
                     /\ jobmaps (after x) = jobmaps st).
    { destruct Hstays as [Hnil|Hbad].
      - subst x. rewrite Hnil. apply keeps_foreground_worker.
      - destruct (outcome x) as [[]|e] eqn:Hx; [congruence|].
        exact (worker_error_registry m cfg tables sw dw sqlFiles fileInfos exports key
                 saveDir nowTime st e Hx). }
    destruct Hkeeps as [Hb Hj]. split; [exact Hb|]. split; [|intros _; exact Hj].
    intros Hne Hok. destruct Hstays as [Hnil|Hbad]; [contradiction | destruct (Hbad Hok)].
Qed.

Lemma zip_manifest_differs zipFile : zipFile +:+ ".txt" <> zipFile.
Proof.
  intros Heq. apply (f_equal String.length) in Heq. rewrite sapp_length in Heq.
  cbn [String.length] in Heq. lia.
Qed.

(** X12: [worker] returns an error in two cases only, and then with that
    very error: when [Export] failed, or when there were files to archive
    and the archiver failed.  In both cases the Job Registry is left
    exactly as it was, so the entry of the job stays. *)
Theorem worker_failure_keeps_registry m cfg tables sw dw sqlFiles fileInfos exports key
    saveDir nowTime st e :
  let x := worker E m cfg tables sw dw sqlFiles fileInfos exports key saveDir nowTime st in
  outcome x = Err e ->
  (outcome (Export E cfg tables sw dw [true] st) = Err e
   \/ (outcome (Export E cfg tables sw dw [true] st) = Ok tt
       /\ sqlFiles <> []
       /\ exists cause, e = ErrOS cause
            /\ zip_fault E (zip_path E m saveDir nowTime) sqlFiles = Some cause))
  /\ backgrounds (after x) = backgrounds st
  /\ jobmaps (after x) = jobmaps st.
Proof.
  intros x Hx. subst x.
  destruct (keeps_Export E cfg tables sw dw [true] st) as [Hbg Hjm].
  destruct (outcome (Export E cfg tables sw dw [true] st)) as [[]|e0] eqn:Hx0.
  - destruct sqlFiles as [|f0 sqlFiles'] eqn:Hsql.
    { rewrite (worker_no_files_run _ _ _ _ _ _ _ _ _ _ _ Hx0) in Hx. discriminate. }
    rewrite <- Hsql in *. assert (Hne : sqlFiles <> []) by (subst; discriminate).
    destruct (zip_fault E (zip_path E m saveDir nowTime) sqlFiles) as [cause|] eqn:Hzip.
    + destruct (worker_zip_failed_run m cfg tables sw dw sqlFiles fileInfos exports key
                  saveDir nowTime st cause Hx0 Hne Hzip) as (Ho & _ & Hb & Hj & _).
      rewrite Ho in Hx. injection Hx as <-.
      split; [right; split; [reflexivity|]; split; [exact Hne|]; eauto|].
      rewrite Hb, Hj. auto.
    + destruct (worker_success_run m cfg tables sw dw sqlFiles fileInfos exports key
                  saveDir nowTime st Hx0 Hne Hzip) as (Ho & _).
      rewrite Ho in Hx. discriminate.
  - rewrite (worker_export_failed_run _ _ _ _ _ _ _ _ _ _ _ _ _ Hx0) in Hx |- *.
    cbn [outcome after fst snd] in *. injection Hx as <-. auto.
Qed.

(** X13: when [worker] had files to archive and returned without error,
    the fingerprint of the job is no longer in the map of running exports,
    the other entries of that map and the other maps are as they were, and
    [backgrounds] is unchanged. *)
Theorem worker_success_releases_entry m cfg tables sw dw sqlFiles fileInfos exports key
    saveDir nowTime st :
  sqlFiles <> [] ->
  let x := worker E m cfg tables sw dw sqlFiles fileInfos exports key saveDir nowTime st in
  outcome x = Ok tt ->
  jobmaps (after x) !! exports ≫= (.!! key) = None
  /\ (forall other, other <> key ->
        jobmaps (after x) !! exports ≫= (.!! other)
        = jobmaps st !! exports ≫= (.!! other))
  /\ (forall others, others <> exports -> jobmaps (after x) !! others = jobmaps st !! others)
  /\ backgrounds (after x) = backgrounds st.
Proof.
  intros Hne x Hx. subst x.
  destruct (worker_release_run m cfg tables sw dw sqlFiles fileInfos exports key saveDir
              nowTime st Hne Hx) as [Hj Hb].
  rewrite Hj, Hb. clear Hj Hb.
  destruct (jobmaps st !! exports ≫= (.!! key)) as [ptr|] eqn:Hfound.
  - split; [|split; [|split; [|reflexivity]]].
    + rewrite lookup_alter_eq. destruct (jobmaps st !! exports) as [jm|]; [|reflexivity].
      cbn. apply lookup_delete_eq.
    + intros other Hother. rewrite lookup_alter_eq.
      destruct (jobmaps st !! exports) as [jm|]; [|reflexivity].
      cbn. apply lookup_delete_ne. congruence.
    + intros others Hothers. apply lookup_alter_ne. congruence.
  - auto.
Qed.

(** X14: when [worker] had files to archive and returned without error,
    the list behind [fileInfos] holds the entries it held after the dump,
    each with its end time, elapsed time and size filled in, followed by
    one more entry for the archive: compressed, at the path of the archive,
    started when the others ended. *)
Theorem worker_manifest m cfg tables sw dw sqlFiles fileInfos exports key
    saveDir nowTime st :
  sqlFiles <> [] ->
  let st1 := after (Export E cfg tables sw dw [true] st) in
  let now := Now E (clock st1) in
  let old := default [] (infos st1 !! fileInfos) in
  let x := worker E m cfg tables sw dw sqlFiles fileInfos exports key saveDir nowTime st in
  outcome x = Ok tt ->
  exists archive,
    infos (after x) !! fileInfos = Some (map (measured (files st1) now) old ++ [archive])
    /\ Path archive = zip_path E m saveDir nowTime
    /\ Compressed archive = true
    /\ Start archive = now
    /\ End_ archive = Now E (S (clock st1))
    /\ Elapsed archive = (End_ archive - Start archive)%Z
    /\ Forall (fun fi => End_ fi = Start archive /\ Elapsed fi = (End_ fi - Start fi)%Z)
         (map (measured (files st1) now) old)
    /\ map Path (map (measured (files st1) now) old) = map Path old
    /\ (forall others, others <> fileInfos ->
          infos (after x) !! others = infos st1 !! others).
Proof.
  intros Hne st1 now old x Hx. subst x.
  destruct (worker_ok_inv _ _ _ _ _ _ _ _ _ _ _ _ Hne Hx) as [Hx0 Hzip].
  destruct (worker_success_run m cfg tables sw dw sqlFiles fileInfos exports key
              saveDir nowTime st Hx0 Hne Hzip) as (_ & Hi & _).
  eexists. rewrite Hi. split; [apply lookup_insert_eq|].
  unfold archive_info. cbn [Path Compressed Start End_ Elapsed].
  repeat split; try reflexivity.
  - apply List.Forall_map. apply Forall_forall. intros fi0 _. split; reflexivity.
  - rewrite map_map. reflexivity.
  - intros others Hothers. apply lookup_insert_ne. congruence.
Qed.

(** X15: when [worker] had files to archive and returned without error,
    every intermediate file whose removal did not fail is gone; the archive
    holds what the archiver made of the contents of the intermediate files
    (unless the archive path was itself among the files removed); a file
    whose removal failed, and every file that is neither an intermediate
    file, nor the archive, nor the manifest, is as the dump left it; and
    the manifest is there if it could be written. *)
Theorem worker_files m cfg tables sw dw sqlFiles fileInfos exports key
    saveDir nowTime st :
  sqlFiles <> [] ->
  let st1 := after (Export E cfg tables sw dw [true] st) in
  let zipFile := zip_path E m saveDir nowTime in
  let x := worker E m cfg tables sw dw sqlFiles fileInfos exports key saveDir nowTime st in
  outcome x = Ok tt ->
  (forall p, p ∈ sqlFiles -> remove_fault E p = None -> p <> zipFile +:+ ".txt" ->
     files (after x) !! p = None)
  /\ (zipFile ∉ sqlFiles \/ remove_fault E zipFile <> None ->
       files (after x) !! zipFile = Some (archive_of E sqlFiles (files st1)))
  /\ (forall p, p ∉ sqlFiles \/ remove_fault E p <> None ->
        p <> zipFile -> p <> zipFile +:+ ".txt" ->
        files (after x) !! p = files st1 !! p)
  /\ (write_fault E (zipFile +:+ ".txt") = None ->
       is_Some (files (after x) !! (zipFile +:+ ".txt"))).
Proof.
  intros Hne st1 zipFile x Hx. subst x.
  destruct (worker_ok_inv _ _ _ _ _ _ _ _ _ _ _ _ Hne Hx) as [Hx0 Hzip].
  destruct (worker_success_run m cfg tables sw dw sqlFiles fileInfos exports key
              saveDir nowTime st Hx0 Hne Hzip) as (_ & _ & Hf & _).
  fold st1 zipFile in Hf. rewrite Hf. clear Hf.
  pose proof (zip_manifest_differs zipFile) as Hdiff.
  set (zipped := <[zipFile := archive_of E sqlFiles (files st1)]> (files st1)).
  assert (Hstays : forall p, p ∉ sqlFiles \/ remove_fault E p <> None ->
            (bool_decide (p ∈ sqlFiles) && bool_decide (remove_fault E p = None)) = false).
  { intros p [Hp|Hp].
    - rewrite (bool_decide_eq_false_2 _ Hp). reflexivity.
    - rewrite (bool_decide_eq_false_2 _ Hp). apply andb_false_r. }
  split; [|split; [|split]].
  - intros p Hin Hrm Hp. rewrite written_lookup_ne by exact Hp.
    rewrite remove_files_lookup.
    rewrite (bool_decide_eq_true_2 _ Hin), (bool_decide_eq_true_2 _ Hrm). reflexivity.
  - intros Hkept. rewrite written_lookup_ne by congruence.
    rewrite remove_files_lookup, (Hstays _ Hkept). apply lookup_insert_eq.
  - intros p Hkept Hpz Hpt. rewrite written_lookup_ne by exact Hpt.
    rewrite remove_files_lookup, (Hstays _ Hkept). apply lookup_insert_ne. congruence.
  - intros Hw. unfold written. rewrite Hw, lookup_insert_eq. eauto.
Qed.

End WorkerFacts.
(** * Background submissions (lines 245-413) *)

Section BackgroundSubmission.

Variable E : Env.

Local Open Scope nat_scope.

Lemma ends_bind {A B} (m : M A) (k : A -> M B) st a (y : result B * world * list event) :
  outcome (m st) = Ok a ->
  outcome (k a (after (m st))) = outcome y /\ after (k a (after (m st))) = after y ->
  outcome (bind m k st) = outcome y /\ after (bind m k st) = after y.
Proof.
  intros Ha [Ho Hw]. rewrite outcome_bind, after_bind, Ha. split; assumption.
Qed.

Lemma TempDir_outcome op st :
  outcome (TempDir E op st) = Ok (filepath_Join E [SQLTempDir E; "dbmanager/cache"; op]).
Proof.
  unfold TempDir, MkdirAll. cbv [bind IsDir get ret try throw modify emit outcome fst].
  destruct (bool_decide _); [reflexivity|]. destruct (mkdir_fault E _); reflexivity.
Qed.

Lemma file_target_outcome m wanted kind saveDir nowTime fileInfos st :
  outcome (file_target E m wanted kind saveDir nowTime fileInfos st)
  = Ok (if wanted
        then (WPath (filepath_Join E [saveDir; dbName m +:+ kind +:+ nowTime +:+ ".sql"]),
              [filepath_Join E [saveDir; dbName m +:+ kind +:+ nowTime +:+ ".sql"]])
        else (WNil, [])).
Proof. destruct wanted; reflexivity. Qed.

Lemma keeps_file_target m wanted kind saveDir nowTime fileInfos :
  keeps_registry (file_target E m wanted kind saveDir nowTime fileInfos).
Proof. intros st. destruct wanted; split; reflexivity. Qed.

Lemma kind_result_dec (b : bool) (r : result unit) :
  (b = true /\ r = Ok tt) \/ ~ (b = true /\ r = Ok tt).
Proof.
  destruct b, r as [[]|e];
    [ left; split; reflexivity
    | right; intros [_ H]; discriminate
    | right; intros [H _]; discriminate .. ].
Qed.

(** Where the handler stands at line 406 of an accepted background export:
    the goroutine it is about to start, and the world at that point. *)
Lemma background_prepared m tables st :
  IsPost m = true -> dbName m <> "" -> request_tables m = Ok tables ->
  Form_output m <> "down" -> Form_output m <> "open" ->
  (forall r, backgrounds st !! OpExport = Some r -> is_Some (jobmaps st !! r)) ->
  registered st (cacheKey tables (Form_output m) (FormValues_type m)) = None ->
  let key := cacheKey tables (Form_output m) (FormValues_type m) in
  exists exports fileInfos cfg sw dw sqlFiles saveDir nowTime jm w,
    (forall tn,
       let y := start_job tn exports key fileInfos
                  (worker E m cfg tables sw dw sqlFiles fileInfos exports key
                     saveDir nowTime) w in
       outcome (mySQL_Export_at E m tn st) = outcome y
       /\ after (mySQL_Export_at E m tn st) = after y)
    /\ backgrounds w = backgrounds st
    /\ jobmaps w !! exports = Some (<[key := fileInfos]> jm)
    /\ (forall other, jm !! other = registered st other)
    /\ (sqlFiles = [] <->
        InSlice "struct" (FormValues_type m) = false
        /\ InSlice "data" (FormValues_type m) = false).
Proof.
  intros Hpost Hdb Htables Hdown Hopen Hwf Hreg key.
  assert (Hhead : exists exports jm st2,
            load_exports st = (Ok exports, st2, [])
            /\ jobmaps st2 !! exports = Some jm
            /\ jm !! key = None
            /\ backgrounds st2 = backgrounds st
            /\ (forall other, jm !! other = registered st other)).
  { fold key in Hreg. unfold registered in *. unfold load_exports, bind, get.
    destruct (backgrounds st !! OpExport) as [exports|] eqn:Hbg.
    - destruct (Hwf exports eq_refl) as [jm Hjm].
      cbn [mbind option_bind] in Hreg. rewrite Hjm in Hreg. cbn [mbind option_bind] in Hreg.
      exists exports, jm, st. cbn [ret mbind option_bind].
      split; [reflexivity|]. split; [exact Hjm|]. split; [exact Hreg|].
      split; [reflexivity|]. intros other. rewrite Hjm. reflexivity.
    - exists (next st), ∅, (set_next (S (next st))
                              (set_jobmaps (<[next st := ∅]> (jobmaps st)) st)).
      cbn [put ret jobmaps backgrounds set_next set_jobmaps mbind option_bind].
      rewrite lookup_insert_eq.
      split; [reflexivity|]. split; [reflexivity|]. split; [apply lookup_empty|].
      split; [reflexivity|]. intros other. apply lookup_empty. }
  destruct Hhead as (exports & jm & st2 & Hload & Hjm & Hkey & Hbg & Hothers).
  set (fileInfos := next st2).
  set (st3 := set_next (S fileInfos) (set_infos (<[fileInfos := []]> (infos st2)) st2)).
  set (st4 := set_jobmaps (alter (insert key fileInfos) exports (jobmaps st3)) st3).
  set (nowTime := itoa (Now E (clock st4) / 1000000000)%Z).
  set (saveDir := filepath_Join E [SQLTempDir E; "dbmanager/cache"; "export"]).
  set (st5 := after (time_Now E st4)).
  set (st6 := after (TempDir E "export" st5)).
  set (wanted_s := InSlice "struct" (FormValues_type m)).
  set (wanted_d := InSlice "data" (FormValues_type m)).
  set (st7 := after (file_target E m wanted_s "-struct-" saveDir nowTime fileInfos st6)).
  set (st8 := after (file_target E m wanted_d "-data-" saveDir nowTime fileInfos st7)).
  set (s := if wanted_s
            then (WPath (filepath_Join E [saveDir; dbName m +:+ "-struct-" +:+ nowTime
                                                  +:+ ".sql"]),
                  [filepath_Join E [saveDir; dbName m +:+ "-struct-" +:+ nowTime
                                            +:+ ".sql"]])
            else (WNil, [])).
  set (d := if wanted_d
            then (WPath (filepath_Join E [saveDir; dbName m +:+ "-data-" +:+ nowTime
                                                  +:+ ".sql"]),
                  [filepath_Join E [saveDir; dbName m +:+ "-data-" +:+ nowTime
                                            +:+ ".sql"]])
            else (WNil, [])).
  exists exports, fileInfos,
    (mkDbAuth (Host (Auth m)) (Username (Auth m)) (Password (Auth m)) (dbName m)
       (Charset (Auth m))),
    (fst s), (fst d), (snd s ++ snd d), saveDir, nowTime, jm, st8.
  split; [|split; [|split; [|split]]].
  - intros tn y. subst y.
    unfold mySQL_Export_at. rewrite Hpost, Htables.
    assert (Hlen : (String.length (dbName m) =? 0) = false)
      by (destruct (dbName m); [congruence | reflexivity]).
    rewrite Hlen.
    apply String.eqb_neq in Hdown, Hopen. rewrite Hdown, Hopen. cbn [orb].
    cbv zeta. fold key.
    apply (ends_bind _ _ _ exports); [rewrite Hload; reflexivity|].
    rewrite Hload. cbn [after fst snd].
    apply (ends_bind _ _ _ None).
    { unfold map_lookup, bind, get, ret. cbn [outcome fst]. rewrite Hjm.
      cbn [mbind option_bind]. rewrite Hkey. reflexivity. }
    change (after (map_lookup exports key st2)) with st2.
    apply (ends_bind _ _ _ fileInfos); [reflexivity|].
    change (after (new_FileInfos st2)) with st3.
    apply (ends_bind _ _ _ tt); [reflexivity|].
    change (after (map_store exports key fileInfos st3)) with st4.
    apply (ends_bind _ _ _ (Now E (clock st4))); [reflexivity|].
    fold st5 nowTime.
    apply (ends_bind _ _ _ saveDir); [apply TempDir_outcome|].
    fold st6.
    apply (ends_bind _ _ _ s); [apply file_target_outcome|].
    fold wanted_s st7.
    apply (ends_bind _ _ _ d); [apply file_target_outcome|].
    fold wanted_d st8.
    split; reflexivity.
  - subst st8 st7 st6 st5.
    rewrite (proj1 (keeps_file_target _ _ _ _ _ _ _)), (proj1 (keeps_file_target _ _ _ _ _ _ _)).
    rewrite (proj1 (keeps_TempDir E _ _)), (proj1 (keeps_time_Now E _)). exact Hbg.
  - subst st8 st7 st6 st5.
    rewrite (proj2 (keeps_file_target _ _ _ _ _ _ _)), (proj2 (keeps_file_target _ _ _ _ _ _ _)).
    rewrite (proj2 (keeps_TempDir E _ _)), (proj2 (keeps_time_Now E _)).
    subst st4 st3. cbn [jobmaps set_jobmaps set_next set_infos].
    rewrite lookup_alter_eq, Hjm. reflexivity.
  - exact Hothers.
  - subst s d. destruct wanted_s, wanted_d; cbn [fst snd app];
      (split; [intros Hnil; try discriminate Hnil; split; reflexivity
              |intros [H1 H2]; try discriminate H1; try discriminate H2; reflexivity]).
Qed.



(** X17: the goroutine of an accepted background export and the Job
    Registry, for each of the three places at which the goroutine can come
    to lines 379-381: before line 408, between lines 408 and 409, and after
    line 409.  [y] is the goroutine run to its end.  When an artifact kind
    was asked for, the goroutine ends without error and it did not come to
    the registry before line 408, the fingerprint is registered no longer
    and the other entries are as they were before the submission.  In
    every other case (no artifact kind, an error, or the goroutine first)
    the fingerprint stays registered and the same request is refused as
    already running. *)
Theorem background_job_registry m tables st tn :
  IsPost m = true -> dbName m <> "" -> request_tables m = Ok tables ->
  Form_output m <> "down" -> Form_output m <> "open" ->
  (forall r, backgrounds st !! OpExport = Some r -> is_Some (jobmaps st !! r)) ->
  registered st (cacheKey tables (Form_output m) (FormValues_type m)) = None ->
  let key := cacheKey tables (Form_output m) (FormValues_type m) in
  let x := mySQL_Export_at E m tn st in
  let y := run_job (outcome x) (after x) in
  let some_kind :=
    InSlice "struct" (FormValues_type m) || InSlice "data" (FormValues_type m) in
  (some_kind = true -> outcome y = Ok tt -> tn <> AtOnce ->
     registered (after y) key = None
     /\ forall other, other <> key -> registered (after y) other = registered st other)
  /\ ((some_kind = false \/ outcome y <> Ok tt \/ tn = AtOnce) ->
      is_Some (registered (after y) key)
      /\ mySQL_Export E m (after y) = (Err ErrRunning, after y, [])).
Proof.
  intros Hpost Hdb Htables Hdown Hopen Hwf Hreg key x y some_kind.
  destruct (background_prepared m tables st Hpost Hdb Htables Hdown Hopen Hwf Hreg)
    as (exports & fileInfos & cfg & sw & dw & sqlFiles & saveDir & nowTime & jm & w
        & Hrun & Hbg & Hjm & Hothers & Hnil).
  fold key in Hrun, Hjm.
  destruct (Hrun tn) as [Ho Hw]. clear Hrun.
  set (job := worker E m cfg tables sw dw sqlFiles fileInfos exports key saveDir nowTime)
    in *.
  assert (Hkind : some_kind = true <-> sqlFiles <> []).
  { subst some_kind. split.
    - intros Hk Hempty. apply Hnil in Hempty as [H1 H2]. rewrite H1, H2 in Hk.
      discriminate.
    - intros Hne. destruct (InSlice "struct" _) eqn:H1; [reflexivity|].
      destruct (InSlice "data" _) eqn:H2; [reflexivity|].
      destruct Hne. apply Hnil. split; reflexivity. }
  (* the registry when handler and goroutine are both done *)
  assert (Hfinal : backgrounds (after y) !! OpExport = Some exports
            /\ exists jm', jobmaps (after y) !! exports = Some jm'
                 /\ (some_kind = true -> outcome y = Ok tt -> tn <> AtOnce ->
                     jm' = delete key jm)
                 /\ ((some_kind = false \/ outcome y <> Ok tt \/ tn = AtOnce) ->
                     jm' !! key = Some fileInfos)).
  { subst y x. rewrite Ho, Hw. clear Ho Hw.
    destruct tn; unfold start_job.
    - (* the goroutine first *)
      cbv [bind try map_store backgrounds_Store modify ret].
      destruct (worker_registry E m cfg tables sw dw sqlFiles fileInfos exports key saveDir
                  nowTime w) as (Hb & Hrel & Hstay).
      fold job in Hb, Hrel, Hstay.
      destruct (job w) as [[r w1] evs1] eqn:Hjob.
      cbn [outcome after fst snd run_job finished backgrounds jobmaps set_backgrounds
           set_jobmaps] in *.
      split; [apply lookup_insert_eq|].
      assert (Hsome : is_Some (jobmaps w1 !! exports)).
      { destruct sqlFiles as [|f0 l] eqn:Hsql.
        - rewrite Hstay by (left; reflexivity). rewrite Hjm. eauto.
        - destruct r as [[]|e].
          + rewrite Hrel by (discriminate || reflexivity).
            rewrite Hjm. cbn [mbind option_bind]. rewrite lookup_insert_eq.
            rewrite lookup_alter_eq, Hjm. eauto.
          + rewrite Hstay by (right; discriminate). rewrite Hjm. eauto. }
      destruct Hsome as [jm1 Hjm1].
      exists (<[key := fileInfos]> jm1).
      split; [rewrite lookup_alter_eq, Hjm1; reflexivity|].
      split; [intros _ _ Hne; destruct (Hne eq_refl)|].
      intros _. apply lookup_insert_eq.
    - (* the goroutine between the insert and the store *)
      cbv [bind try map_store backgrounds_Store modify ret].
      set (w0 := set_jobmaps (alter (insert key fileInfos) exports (jobmaps w)) w).
      assert (Hjm0 : jobmaps w0 !! exports = Some (<[key := fileInfos]> jm)).
      { subst w0. cbn [jobmaps set_jobmaps]. rewrite lookup_alter_eq, Hjm.
        cbn [fmap option_fmap option_map]. rewrite insert_insert_eq. reflexivity. }
      destruct (worker_registry E m cfg tables sw dw sqlFiles fileInfos exports key saveDir
                  nowTime w0) as (Hb & Hrel & Hstay).
      fold job in Hb, Hrel, Hstay.
      destruct (job w0) as [[r w1] evs1] eqn:Hjob.
      cbn [outcome after fst snd run_job finished backgrounds jobmaps set_backgrounds
           set_jobmaps] in *.
      split; [apply lookup_insert_eq|].
      rewrite Hjm0 in Hrel. cbn [mbind option_bind] in Hrel.
      rewrite lookup_insert_eq in Hrel.
      destruct (kind_result_dec some_kind r) as [[Hk Hr]|Hnot].
      + exists (delete key jm).
        split; [rewrite Hrel by (apply Hkind, Hk || exact Hr);
                rewrite lookup_alter_eq, Hjm0; cbn [fmap option_fmap option_map];
                rewrite delete_insert_eq; reflexivity|].
        split; [reflexivity|].
        intros [Hbad|[Hbad|Hbad]]; [congruence | contradiction | discriminate].
      + exists (<[key := fileInfos]> jm).
        assert (Hcase : sqlFiles = [] \/ r <> Ok tt).
        { destruct sqlFiles; [left; reflexivity|]. right. intros Hr. apply Hnot.
          split; [apply Hkind; discriminate | exact Hr]. }
        split; [rewrite (Hstay Hcase); exact Hjm0|].
        split; [intros Hk Hr _; destruct Hnot; split; assumption|].
        intros _. apply lookup_insert_eq.
    - (* the goroutine after the handler has returned *)
      cbv [bind map_store backgrounds_Store modify ret].
      cbn [outcome after fst snd run_job].
      match goal with |- context [job ?w'] => set (w0 := w') end.
      assert (Hjm0 : jobmaps w0 !! exports = Some (<[key := fileInfos]> jm)).
      { subst w0. cbn [jobmaps set_jobmaps set_backgrounds]. rewrite lookup_alter_eq, Hjm.
        cbn [fmap option_fmap option_map]. rewrite insert_insert_eq. reflexivity. }
      assert (Hbg0 : backgrounds w0 !! OpExport = Some exports).
      { subst w0. cbn [backgrounds set_jobmaps set_backgrounds]. apply lookup_insert_eq. }
      destruct (worker_registry E m cfg tables sw dw sqlFiles fileInfos exports key saveDir
                  nowTime w0) as (Hb & Hrel & Hstay).
      fold job in Hb, Hrel, Hstay.
      rewrite Hb. split; [exact Hbg0|].
      rewrite Hjm0 in Hrel. cbn [mbind option_bind] in Hrel.
      rewrite lookup_insert_eq in Hrel.
      destruct (kind_result_dec some_kind (outcome (job w0))) as [[Hk Hr]|Hnot].
      + exists (delete key jm).
        split; [rewrite Hrel by (apply Hkind, Hk || exact Hr);
                rewrite lookup_alter_eq, Hjm0; cbn [fmap option_fmap option_map];
                rewrite delete_insert_eq; reflexivity|].
        split; [reflexivity|].
        intros [Hbad|[Hbad|Hbad]]; [congruence | contradiction | discriminate].
      + exists (<[key := fileInfos]> jm).
        assert (Hcase : sqlFiles = [] \/ outcome (job w0) <> Ok tt).
        { destruct sqlFiles; [left; reflexivity|]. right. intros Hr. apply Hnot.
          split; [apply Hkind; discriminate | exact Hr]. }
        split; [rewrite (Hstay Hcase); exact Hjm0|].
        split; [intros Hk Hr _; destruct Hnot; split; assumption|].
        intros _. apply lookup_insert_eq. }
  destruct Hfinal as (Hb & jm' & Hj & Hrel & Hstay).
  assert (Hfound : forall k, registered (after y) k = jm' !! k).
  { intros k. unfold registered. rewrite Hb. cbn [mbind option_bind].
    rewrite Hj. reflexivity. }
  split.
  - intros Hk Hok Htn. rewrite (Hrel Hk Hok Htn) in Hfound. split.
    + rewrite Hfound. apply lookup_delete_eq.
    + intros other Hother. rewrite Hfound, lookup_delete_ne by congruence. apply Hothers.
  - intros Hcase. specialize (Hstay Hcase). split.
    + rewrite Hfound, Hstay. eauto.
    + unfold mySQL_Export, mySQL_Export_at. rewrite Hpost, Htables.
      destruct (dbName m) as [|c name]; [congruence|]. cbn [String.length Nat.eqb].
      fold key. unfold bind at 1. unfold load_exports, bind at 1. cbn [get].
      rewrite Hb. cbn [ret].
      unfold bind at 1. unfold map_lookup, bind at 1. cbn [get ret].
      rewrite Hj. cbn [mbind option_bind]. rewrite Hstay. reflexivity.
Qed.

End BackgroundSubmission.
(** * The loop of [Export] stops at the first failure; the table list *)

Section ExportStops.

Variable E : Env.

Local Open Scope nat_scope.

(** X18: when the pass of the first writer fails, [Export] returns that
    error at once: the pass of the second writer is not run, so that at
    most one subprocess was started, with the arguments of the structure
    pass, and no file other than the one of the first writer is changed;
    the file of the second writer is not even created. *)
Theorem Export_stops_at_first_failure cfg tables sw dw rs st e :
  tables <> [] -> InSlice (Charset cfg) (Charsets E) = true ->
  sw <> WNil ->
  let args := Export_args cfg (fst (Export_host_port (Host cfg)))
                (snd (Export_host_port (Host cfg))) ++ tables in
  let pass := dump_pass E 0 (reset_flag rs) sw args st in
  outcome pass = Err e ->
  let x := Export E cfg tables sw dw rs st in
  x = (Err e, after pass, EvLog tables :: events pass)
  /\ (starts (events x) = [] \/ starts (events x) = [args])
  /\ (forall p, ~ In p (writer_paths sw) -> files (after x) !! p = files st !! p).
Proof.
  intros Ht Hc Hsw args pass Hpass x. subst x.
  assert (Hrun : Export E cfg tables sw dw rs st
                 = (Err e, after pass, EvLog tables :: events pass)).
  { rewrite Export_run by assumption. fold args.
    unfold bind at 1. cbn [emit].
    rewrite (dump_passes_cons E _ _ _ _ _ _ Hsw). cbn [Nat.ltb Nat.leb].
    unfold bind at 1. fold pass. rewrite (run_eta pass), Hpass. reflexivity. }
  rewrite Hrun. cbn [events after fst snd starts].
  split; [reflexivity|]. split.
  - apply (dump_pass_starts E 0 (reset_flag rs) sw args st).
  - intros p Hp. apply (touches_dump_pass E 0 (reset_flag rs) sw args st p Hp).
Qed.

End ExportStops.

Section RequestTables.

Local Open Scope nat_scope.

Lemma Split_from_length cur s sep : 0 < length (Split_from cur s sep).
Proof.
  revert cur. induction s as [|c s IH]; intros cur; cbn [Split_from length]; [lia|].
  destruct (Ascii.eqb c sep); [cbn [length]; lia | apply IH].
Qed.

(** X19: when the form does not ask for all tables and carries exactly one
    [view] value that is not empty, the tables of the request are listed
    twice in what is exported, before the views of that value. *)
Theorem request_tables_repeats_tables m v :
  Formx_all m = false -> FormValues_view m = [v] -> v <> "" ->
  exists tables,
    request_tables m = Ok (tables ++ tables ++ Split v ",")
    /\ (forall t, FormValues_table m = [t] -> t <> "" -> tables = Split t ",")
    /\ ((forall t, FormValues_table m = [t] -> t = "") -> tables = FormValues_table m).
Proof.
  intros Hall Hview Hv. unfold request_tables. rewrite Hall, Hview.
  destruct v as [|c v]; [congruence|].
  change (0 <? String.length (String c v)) with true. cbv iota.
  set (tables := match FormValues_table m with
                 | [t] => if 0 <? String.length t then Split t "," else FormValues_table m
                 | _ => FormValues_table m
                 end).
  exists tables. split; [|split].
  - assert (Hlen : (0 <? length (tables ++ Split (String c v) ",")) = true).
    { apply Nat.ltb_lt. rewrite length_app.
      pose proof (Split_from_length "" (String c v) ","). unfold Split. lia. }
    rewrite Hlen. reflexivity.
  - intros t Ht Hne. subst tables. rewrite Ht.
    destruct t; [congruence|]. reflexivity.
  - intros Hempty. subst tables.
    destruct (FormValues_table m) as [|t [|t' l]]; try reflexivity.
    rewrite (Hempty t eq_refl). reflexivity.
Qed.

End RequestTables.
(** * The further properties at concrete requests *)

Section FurtherScenarios.

Local Open Scope nat_scope.

Lemma short_no_occurs (p s : list byte) : length s < length p -> ~ occurs p s.
Proof.
  intros Hlt (pre & post & ->). rewrite !length_app in Hlt. lia.
Qed.

Lemma Export_without_writers_witness :
  Export quiet shop_cfg shop_tables WNil WNil [] empty_world
  = (Ok tt, empty_world, [EvLog shop_tables]).
Proof.
  apply (Export_without_writers quiet shop_cfg shop_tables [] empty_world).
  - discriminate.
  - reflexivity.
Defined.

Lemma Export_unsupported_writer_witness :
  Export quiet shop_cfg shop_tables WNil WOther [true] empty_world
  = (Err ErrUnsupported, empty_world, [EvLog shop_tables]).
Proof.
  apply (Export_unsupported_writer quiet shop_cfg shop_tables WNil WOther [true]
           empty_world).
  - discriminate.
  - reflexivity.
  - right. split; reflexivity.
Defined.

Lemma Export_reports_exit_error_witness :
  Export dump_broken shop_cfg shop_tables (WStream 7 true) (WStream 7 true) []
    empty_world
  = (Err (ErrExit "exit status 2" "Got error: 1045"), empty_world,
     [EvLog shop_tables; EvWriter (SStream 7 true);
      EvStart (Export_args shop_cfg "db" "3307" ++ shop_tables);
      EvCopy (SStream 7 true) [x41; x42];
      EvWait (Export_args shop_cfg "db" "3307" ++ shop_tables); EvCloseStdout]
     ++ closes (SStream 7 true)).
Proof.
  apply (Export_reports_exit_error dump_broken shop_cfg shop_tables 7 true
           (WStream 7 true) [] empty_world [x41; x42] "exit status 2").
  - discriminate.
  - reflexivity.
  - reflexivity.
  - reflexivity.
  - reflexivity.
  - reflexivity.
Defined.

Lemma Export_file_contents_witness :
  let x := Export quiet shop_cfg shop_tables (WPath struct_file) (WPath data_file)
             [true] empty_world in
  outcome x = Ok tt
  /\ files (after x)
     = <[data_file := [x41; x42]]>
         (<[struct_file := finished_content 0 true [x41; x42]]> (files empty_world)).
Proof.
  apply (Export_file_contents quiet shop_cfg shop_tables struct_file data_file [true]
           empty_world [x41; x42] [x41; x42]).
  - discriminate.
  - reflexivity.
  - repeat split.
  - repeat split.
  - reflexivity.
Defined.

Lemma strip_counter_witness :
  cleanRegExp_ReplaceAll
    (list_byte_of_string ") ENGINE=InnoDB" ++ pattern_head ++ [x34; x32] ++ [x20]
     ++ list_byte_of_string "DEFAULT")
  = list_byte_of_string ") ENGINE=InnoDB"
    ++ x20 :: cleanRegExp_ReplaceAll (list_byte_of_string "DEFAULT").
Proof.
  apply (strip_counter (list_byte_of_string ") ENGINE=InnoDB") [x34; x32] [x20]
           (list_byte_of_string "DEFAULT")).
  - apply short_no_occurs. vm_compute. lia.
  - repeat constructor.
  - repeat constructor.
  - split; reflexivity.
Defined.

Lemma ResetAutoIncrement_twice_witness :
  let b := list_byte_of_string ") ENGINE=InnoDB AUTO_INCREMENT=42 DEFAULT CHARSET=utf8;" in
  let st := set_files (<[struct_file := b]> ∅) empty_world in
  let x1 := ResetAutoIncrement quiet struct_file st in
  let x2 := ResetAutoIncrement quiet struct_file (after x1) in
  outcome x1 = Ok tt /\ outcome x2 = Ok tt
  /\ files (after x2) = files (after x1)
  /\ files (after x1) !! struct_file = Some (cleanRegExp_ReplaceAll b).
Proof.
  intros b st.
  apply (ResetAutoIncrement_twice quiet struct_file st b).
  - apply lookup_insert_eq.
  - reflexivity.
  - reflexivity.
Defined.

Lemma getCharsetList_sorted_witness :
  let e : gmap string unit := <["utf8" := tt]> (<["latin1" := tt]> ∅) in
  StronglySorted String.le (getCharsetList ["utf8"; "latin1"])
  /\ NoDup (getCharsetList ["utf8"; "latin1"])
  /\ (forall k, k ∈ getCharsetList ["utf8"; "latin1"] <-> is_Some (e !! k))
  /\ getCharsetList ["latin1"; "utf8"] = getCharsetList ["utf8"; "latin1"].
Proof.
  intros e.
  assert (He : elements (dom e) ≡ₚ ["utf8"; "latin1"]).
  { subst e. rewrite !dom_insert_L, dom_empty_L, union_empty_r_L.
    rewrite elements_union_singleton by set_solver.
    rewrite elements_singleton. reflexivity. }
  apply (getCharsetList_sorted e ["utf8"; "latin1"] ["latin1"; "utf8"]).
  - unfold ranges_over. symmetry. exact He.
  - unfold ranges_over. rewrite He. apply perm_swap.
Defined.

Lemma worker_failure_keeps_registry_witness :
  let x := worker zip_broken (shop_request "") shop_cfg shop_tables (WPath struct_file)
             (WPath data_file) [struct_file; data_file] 1 0
             (cacheKey shop_tables "" ["struct"; "data"]) "/tmp/dbmanager/cache/export" "0"
             (after archive_submitted) in
  backgrounds (after x) = backgrounds (after archive_submitted)
  /\ jobmaps (after x) = jobmaps (after archive_submitted).
Proof.
  apply (worker_failure_keeps_registry zip_broken (shop_request "") shop_cfg shop_tables
           (WPath struct_file) (WPath data_file) [struct_file; data_file] 1 0
           (cacheKey shop_tables "" ["struct"; "data"]) "/tmp/dbmanager/cache/export" "0"
           (after archive_submitted) (ErrOS "disk full")).
  vm_compute. reflexivity.
Defined.

Lemma worker_success_releases_entry_witness :
  let x := worker quiet (shop_request "") shop_cfg shop_tables (WPath struct_file)
             (WPath data_file) [struct_file; data_file] 1 0
             (cacheKey shop_tables "" ["struct"; "data"]) "/tmp/dbmanager/cache/export" "0"
             (after background_submitted) in
  jobmaps (after x) !! 0 ≫= (.!! cacheKey shop_tables "" ["struct"; "data"]) = None.
Proof.
  apply (worker_success_releases_entry quiet (shop_request "") shop_cfg shop_tables
           (WPath struct_file) (WPath data_file) [struct_file; data_file] 1 0
           (cacheKey shop_tables "" ["struct"; "data"]) "/tmp/dbmanager/cache/export" "0"
           (after background_submitted)).
  - discriminate.
  - vm_compute. reflexivity.
Defined.

Lemma worker_manifest_witness :
  let st := after background_submitted in
  let st1 := after (Export quiet shop_cfg shop_tables (WPath struct_file)
                      (WPath data_file) [true] st) in
  let x := worker quiet (shop_request "") shop_cfg shop_tables (WPath struct_file)
             (WPath data_file) [struct_file; data_file] 1 0
             (cacheKey shop_tables "" ["struct"; "data"]) "/tmp/dbmanager/cache/export" "0"
             st in
  exists archive,
    infos (after x) !! 1
    = Some (map (measured (files st1) (Now quiet (clock st1)))
              (default [] (infos st1 !! 1)) ++ [archive])
    /\ Path archive = zip_path quiet (shop_request "") "/tmp/dbmanager/cache/export" "0"
    /\ Compressed archive = true.
Proof.
  intros st st1 x.
  destruct (worker_manifest quiet (shop_request "") shop_cfg shop_tables
              (WPath struct_file) (WPath data_file) [struct_file; data_file] 1 0
              (cacheKey shop_tables "" ["struct"; "data"]) "/tmp/dbmanager/cache/export" "0"
              st) as (archive & H1 & H2 & H3 & _).
  - discriminate.
  - vm_compute. reflexivity.
  - exists archive. split; [exact H1|]. split; [exact H2 | exact H3].
Defined.

Lemma worker_files_witness :
  let x := worker quiet (shop_request "") shop_cfg shop_tables (WPath struct_file)
             (WPath data_file) [struct_file; data_file] 1 0
             (cacheKey shop_tables "" ["struct"; "data"]) "/tmp/dbmanager/cache/export" "0"
             (after background_submitted) in
  files (after x) !! struct_file = None /\ files (after x) !! data_file = None.
Proof.
  destruct (worker_files quiet (shop_request "") shop_cfg shop_tables
              (WPath struct_file) (WPath data_file) [struct_file; data_file] 1 0
              (cacheKey shop_tables "" ["struct"; "data"]) "/tmp/dbmanager/cache/export" "0"
              (after background_submitted)) as (H1 & _).
  - discriminate.
  - vm_compute. reflexivity.
  - split.
    + apply H1; [apply list_elem_of_here | reflexivity | discriminate].
    + apply H1; [apply list_elem_of_further, list_elem_of_here | reflexivity
                | discriminate].
Defined.


Lemma background_job_registry_witness :
  let key := cacheKey shop_tables "" ["struct"; "data"] in
  let early := mySQL_Export_at quiet (shop_request "") AtOnce empty_world in
  registered (after background_done) key = None
  /\ outcome (run_job (outcome early) (after early)) = Ok tt
  /\ is_Some (registered (after (run_job (outcome early) (after early))) key).
Proof.
  split; [|split; [vm_compute; reflexivity|]].
  - destruct (background_job_registry quiet (shop_request "") shop_tables empty_world
                AfterReturn) as (H1 & _).
    + reflexivity.
    + discriminate.
    + reflexivity.
    + discriminate.
    + discriminate.
    + intros r Hr. vm_compute in Hr. discriminate.
    + vm_compute. reflexivity.
    + destruct H1 as [H _];
        [reflexivity | vm_compute; reflexivity | discriminate | exact H].
  - destruct (background_job_registry quiet (shop_request "") shop_tables empty_world
                AtOnce) as (_ & H2).
    + reflexivity.
    + discriminate.
    + reflexivity.
    + discriminate.
    + discriminate.
    + intros r Hr. vm_compute in Hr. discriminate.
    + vm_compute. reflexivity.
    + destruct H2 as [H _]; [right; right; reflexivity | exact H].
Defined.

Lemma Export_stops_at_first_failure_witness :
  let x := Export dump_broken shop_cfg shop_tables (WPath struct_file) (WPath data_file)
             [true] empty_world in
  outcome x = Err (ErrExit "exit status 2" "Got error: 1045")
  /\ files (after x) !! data_file = None.
Proof.
  destruct (Export_stops_at_first_failure dump_broken shop_cfg shop_tables
              (WPath struct_file) (WPath data_file) [true] empty_world
              (ErrExit "exit status 2" "Got error: 1045")) as (H1 & _ & H3).
  - discriminate.
  - reflexivity.
  - discriminate.
  - vm_compute. reflexivity.
  - cbv zeta. split.
    + rewrite H1. reflexivity.
    + rewrite H3; [reflexivity|]. intros [H|[]]. vm_compute in H. discriminate.
Defined.

Lemma request_tables_repeats_tables_witness :
  request_tables
    (mkMySQL true "shop" false None (Ok []) ["users,orders"] ["recent"] ""
       ["struct"; "data"] shop_auth 7 false)
  = Ok ["users"; "orders"; "users"; "orders"; "recent"].
Proof.
  destruct (request_tables_repeats_tables
              (mkMySQL true "shop" false None (Ok []) ["users,orders"] ["recent"] ""
                 ["struct"; "data"] shop_auth 7 false) "recent")
    as (tables & H1 & H2 & _).
  - reflexivity.
  - reflexivity.
  - discriminate.
  - rewrite H1, (H2 "users,orders" eq_refl); [reflexivity | discriminate].
Defined.

End FurtherScenarios.
